(** * SVAR: ring buffer, recorder pipeline and writers

    Shallow embedding of the C sources of SVAR (src/rbuf.c, src/recorder.c,
    src/writer*.c, src/pcm.c).  Pointers of [struct rbuf] are byte addresses
    (nat); [size_t] counters never exceed [nmemb] in the states considered,
    so they are modelled as nat without wrap-around. *)

From Stdlib Require Import Arith Lia List Bool ZArith Reals Lra Psatz.
Import ListNotations.

(* ------------------------------------------------------------------ *)
(** ** src/rbuf.c *)

Module Rbuf.

Record rbuf := mk_rbuf {
  head : nat;   (* read pointer *)
  tail : nat;   (* write pointer *)
  begin : nat;  (* buffer memory block *)
  end_ : nat;
  used : nat;   (* number of used elements *)
  nmemb : nat;  (* number of elements *)
  size : nat    (* element size *)
}.

(** [rbuf_init]: [m] is the pointer returned by [malloc] ([None] = NULL). *)
Definition rbuf_init (m : option nat) (nmemb size : nat) : option rbuf :=
  let bytes := nmemb * size in
  match m with
  | None => None
  | Some p => Some (mk_rbuf p p p (p + bytes) 0 nmemb size)
  end.

Definition rbuf_read_linear_capacity (rb : rbuf) : nat :=
  if head rb <? tail rb then (tail rb - head rb) / size rb
  else
    let n := (end_ rb - head rb) / size rb in
    if used rb =? 0 then 0 else n.

Definition rbuf_read_linear_commit (rb : rbuf) (n : nat) : rbuf :=
  let h := head rb + n * size rb in
  let h := if h =? end_ rb then begin rb else h in
  mk_rbuf h (tail rb) (begin rb) (end_ rb) (used rb - n) (nmemb rb) (size rb).

Definition rbuf_write_linear_capacity (rb : rbuf) : nat :=
  if tail rb <? head rb then (head rb - tail rb) / size rb
  else
    let n := (end_ rb - tail rb) / size rb in
    if used rb =? nmemb rb then 0 else n.

Definition rbuf_write_linear_commit (rb : rbuf) (n : nat) : rbuf :=
  let t := tail rb + n * size rb in
  let t := if t =? end_ rb then begin rb else t in
  mk_rbuf (head rb) t (begin rb) (end_ rb) (used rb + n) (nmemb rb) (size rb).

(** A caller's sequence of commits.  Each commit must be at most the linear
    capacity queried just before it (the documented precondition of both
    commit functions); [run_commits] returns [None] for a sequence that
    breaks it. *)
Inductive commit := WrCommit (n : nat) | RdCommit (n : nat).

Definition step (rb : rbuf) (c : commit) : option rbuf :=
  match c with
  | WrCommit n =>
      if n <=? rbuf_write_linear_capacity rb
      then Some (rbuf_write_linear_commit rb n) else None
  | RdCommit n =>
      if n <=? rbuf_read_linear_capacity rb
      then Some (rbuf_read_linear_commit rb n) else None
  end.

Fixpoint run_commits (rb : rbuf) (cs : list commit) : option rbuf :=
  match cs with
  | [] => Some rb
  | c :: cs' => match step rb c with
                | Some rb' => run_commits rb' cs'
                | None => None
                end
  end.

Fixpoint total_written (cs : list commit) : nat :=
  match cs with
  | [] => 0
  | WrCommit n :: cs' => n + total_written cs'
  | RdCommit _ :: cs' => total_written cs'
  end.

Fixpoint total_read (cs : list commit) : nat :=
  match cs with
  | [] => 0
  | RdCommit n :: cs' => n + total_read cs'
  | WrCommit _ :: cs' => total_read cs'
  end.

Definition commit_amount (c : commit) : nat :=
  match c with WrCommit n | RdCommit n => n end.

(** States reachable from [rbuf_init] through valid commits. *)
Definition reachable (rb : rbuf) : Prop :=
  exists p N s cs, 0 < s /\
    exists rb0, rbuf_init (Some p) N s = Some rb0 /\ run_commits rb0 cs = Some rb.

(** Element-level view of a buffer: cursors [h] and [t] are element indices. *)
Definition mk (b h t u N s : nat) : rbuf :=
  mk_rbuf (b + h * s) (b + t * s) b (b + N * s) u N s.

(** The shape invariant of a buffer in element terms. *)
Definition einv (h t u N : nat) : Prop :=
  (h = 0 \/ h < N) /\ (t = 0 \/ t < N) /\
  ((h < t /\ u = t - h) \/ (t < h /\ u = N - h + t) \/
   (h = t /\ (u = 0 \/ u = N))).

End Rbuf.

(* ------------------------------------------------------------------ *)
(** ** src/pcm.c *)

Module Pcm.

Inductive pcm_format := PCM_FORMAT_U8 | PCM_FORMAT_S16LE.

Definition pcm_format_size (format : pcm_format) (samples : nat) : nat :=
  match format with
  | PCM_FORMAT_U8 => 1 * samples
  | PCM_FORMAT_S16LE => 2 * samples
  end.

(** A sample as the RMS loops read it: [(int)buffer[i] - 0x80] for U8 (the
    buffer holds the raw byte), [le16toh(buffer[i])] for S16LE. *)
Definition pcm_sample_value (format : pcm_format) (v : Z) : Z :=
  match format with
  | PCM_FORMAT_U8 => (v - 128)%Z
  | PCM_FORMAT_S16LE => v
  end.

(** [sum2] of [pcm_rms_u8] / [pcm_rms_s16le] (no overflow of the 64-bit
    accumulator is modelled). *)
Definition pcm_sum2 (format : pcm_format) (buffer : list Z) : Z :=
  fold_left (fun acc v => (acc + pcm_sample_value format v * pcm_sample_value format v)%Z)
    buffer 0%Z.

(** [pcm_rms_db], with [double] arithmetic read as real arithmetic. *)
Definition pcm_rms_db (format : pcm_format) (buffer : list Z) : R :=
  let samples := length buffer in
  let '(rms, sample_value_max) :=
    if 0 <? samples then
      (sqrt (IZR (pcm_sum2 format buffer) / INR samples),
       match format with PCM_FORMAT_U8 => 127%R | PCM_FORMAT_S16LE => 32767%R end)
    else (0%R, 0%R) in
  if Rlt_dec 0 rms then (20 * (ln (rms / sample_value_max) / ln 10))%R
  else (-96)%R.

End Pcm.

(* ------------------------------------------------------------------ *)
(** ** src/writer.c, src/writer-wav.c, src/writer-mp3.c, src/writer-opus.c,
       src/writer-vorbis.c, src/writer-ogg.c *)

Module Writer.

Inductive writer_type := RAW | WAV | MP3 | OPUS | VORBIS | OGG.

(** [opened] of [struct writer] and the variant's stream handle
    ([FILE *f], [SNDFILE *sf], [FILE *fp] or [OggOpusEnc *enc]); a handle is
    an abstract non-NULL pointer value. *)
Record writer := mk_writer {
  wtype : writer_type;
  opened : bool;
  handle : option nat
}.

(** Externally visible effects of the writer functions. *)
Inductive effect :=
  | Create (path : nat) (result : option nat)  (* fopen / sf_open / ope_encoder_create_file *)
  | Header (h : nat)                           (* id3 tag, OGG header packets *)
  | Finalize (h : nat)                         (* encoder flush / drain *)
  | Release (h : nat)                          (* fclose / sf_close / ope_encoder_destroy *)
  | Data (h : option nat) (frames : nat).      (* writer->write *)

(** [writer->close]: every variant clears [opened] first and releases the
    handle only when it is not NULL. *)
Definition writer_close (w : writer) : writer * list effect :=
  let w0 := mk_writer (wtype w) false (handle w) in
  match handle w0 with
  | None => (w0, [])
  | Some h =>
      let effs := match wtype w with
                  | RAW | WAV => [Release h]
                  | MP3 | OPUS | VORBIS | OGG => [Finalize h; Release h]
                  end in
      (mk_writer (wtype w) false None, effs)
  end.

(** [writer->open(w, pathname)]; [res] is what the create call returns
    ([None] = NULL).  The raw writer tests [fopen(...) != NULL] where every
    other variant tests [== NULL]. *)
Definition writer_open (w : writer) (pathname : nat) (res : option nat)
  : writer * list effect * Z :=
  let '(w1, e1) := writer_close w in
  let w2 := mk_writer (wtype w1) (opened w1) res in
  let e2 := e1 ++ [Create pathname res] in
  match wtype w with
  | RAW =>
      match res with
      | Some _ => (w2, e2, (-1)%Z)
      | None => (mk_writer (wtype w2) true (handle w2), e2, 0%Z)
      end
  | WAV | OPUS =>
      match res with
      | None => (w2, e2, (-1)%Z)
      | Some _ => (mk_writer (wtype w2) true (handle w2), e2, 0%Z)
      end
  | MP3 | VORBIS | OGG =>
      match res with
      | None => (w2, e2, (-1)%Z)
      | Some h => (mk_writer (wtype w2) true (handle w2), e2 ++ [Header h], 0%Z)
      end
  end.

Definition writer_new (t : writer_type) : writer := mk_writer t false None.

End Writer.

(* ------------------------------------------------------------------ *)
(** ** src/recorder.c *)

Module Recorder.
Import Rbuf Pcm.

Record timespec := mk_ts { tv_sec : Z; tv_nsec : Z }.

Definition ts_diff_ms (ts1 ts2 : timespec) : Z :=
  ((tv_sec ts1 - tv_sec ts2) * 1000 + Z.quot (tv_nsec ts1 - tv_nsec ts2) 1000000)%Z.

(** A reading of the monotonic clock taken [ns] nanoseconds after its epoch. *)
Definition ts_of_ns (ns : Z) : timespec := mk_ts (ns / 1000000000)%Z (ns mod 1000000000)%Z.

Record recorder := mk_recorder {
  format : pcm_format;
  channels : nat;
  rate : nat;
  rb : rbuf;
  started : bool;
  activation_threshold_level_db : R;
  activation_fadeout_time_ms : Z;
  output_split_time_ms : Z;
  monitor : bool;
  verbose : Z
}.

(** Number of ring-buffer elements allocated by [recorder_new]. *)
Definition recorder_rb_nmemb (channels rate : nat) : nat :=
  let pcm_read_frames := rate / 10 in
  channels * pcm_read_frames * 8.

(** [recorder_new] ([malloc] returns [m] for the ring buffer). *)
Definition recorder_new (m : option nat) (format : pcm_format) (channels rate : nat)
  : option recorder :=
  match rbuf_init m (recorder_rb_nmemb channels rate) (pcm_format_size format 1) with
  | None => None
  | Some rb => Some (mk_recorder format channels rate rb false 0%R 0%Z 0%Z false 0%Z)
  end.

Definition with_rb (r : recorder) (rb' : rbuf) : recorder :=
  mk_recorder (format r) (channels r) (rate r) rb' (started r)
    (activation_threshold_level_db r) (activation_fadeout_time_ms r)
    (output_split_time_ms r) (monitor r) (verbose r).

Definition with_started (r : recorder) (b : bool) : recorder :=
  mk_recorder (format r) (channels r) (rate r) (rb r) b
    (activation_threshold_level_db r) (activation_fadeout_time_ms r)
    (output_split_time_ms r) (monitor r) (verbose r).

(** The process-wide state of recorder.c: the function-level
    [static struct timespec activation_time = { 0 }] of [recorder_monitor]. *)
Record globals := mk_globals { activation_time : timespec }.

Definition globals_init : globals := mk_globals (mk_ts 0%Z 0%Z).

(** [recorder_monitor]: [t_loud] is what the first [clock_gettime] returns
    (read only for a loud chunk), [t_now] what the second one returns. *)
Definition recorder_monitor (g : globals) (r : recorder) (buffer : list Z)
    (t_loud t_now : timespec) : globals * Z :=
  let buffer_rms_db := pcm_rms_db (format r) buffer in
  if monitor r then (g, (-2)%Z)
  else
    let g' := if Rgt_dec buffer_rms_db (activation_threshold_level_db r)
              then mk_globals t_loud else g in
    if (ts_diff_ms t_now (activation_time g') <=? activation_fadeout_time_ms r)%Z
    then (g', 0%Z) else (g', (-1)%Z).

(** Successive [recorder_monitor] calls, one per chunk with its two clock
    readings, threading the process-wide state. *)
Fixpoint monitor_run (g : globals) (r : recorder)
    (chunks : list (list Z * timespec * timespec)) : list Z :=
  match chunks with
  | [] => []
  | (buffer, t_loud, t_now) :: chunks' =>
      let '(g', m) := recorder_monitor g r buffer t_loud t_now in
      m :: monitor_run g' r chunks'
  end.

(** Events of the producer path. *)
Inductive pevent :=
  | PCommit (capacity batch : nat)  (* rbuf_write_linear_commit of [batch] after
                                       the capacity query returned [capacity] *)
  | PSignal                         (* pthread_cond_signal *)
  | PWarnOverrun                    (* warn("PCM buffer overrun") *)
  | PBreak (pending : nat).         (* loop left with [pending] samples uncopied *)

(** The [while (samples > 0)] loop of [recorder_process]; [fuel] bounds the
    iterations (each one that does not break copies at least one sample). *)
Fixpoint process_loop (fuel : nat) (verbose : Z) (rb : rbuf) (samples : nat)
  : rbuf * list pevent :=
  match fuel with
  | O => (rb, [])
  | S fuel' =>
      if samples =? 0 then (rb, [])
      else
        let rb_wr_capacity_samples := rbuf_write_linear_capacity rb in
        let batch_samples := Nat.min samples rb_wr_capacity_samples in
        if rb_wr_capacity_samples =? 0 then
          (rb, (if (1 <=? verbose)%Z then [PWarnOverrun] else []) ++ [PBreak samples])
        else
          let rb' := rbuf_write_linear_commit rb batch_samples in
          let '(rb'', evs) := process_loop fuel' verbose rb' (samples - batch_samples) in
          (rb'', PCommit rb_wr_capacity_samples batch_samples :: PSignal :: evs)
  end.

(** [recorder_process] on a chunk of [length buffer] samples. *)
Definition recorder_process (g : globals) (r : recorder) (buffer : list Z)
    (t_loud t_now : timespec) : globals * recorder * list pevent * Z :=
  let '(g', m) := recorder_monitor g r buffer t_loud t_now in
  if negb (m =? 0)%Z then (g', r, [], 0%Z)
  else
    let samples := length buffer in
    let '(rb', evs) := process_loop samples (verbose r) (rb r) samples in
    (g', with_rb r rb', evs, 0%Z).

Fixpoint committed (evs : list pevent) : nat :=
  match evs with
  | [] => 0
  | PCommit _ n :: evs' => n + committed evs'
  | _ :: evs' => committed evs'
  end.

Fixpoint dropped (evs : list pevent) : nat :=
  match evs with
  | [] => 0
  | PBreak n :: evs' => n + dropped evs'
  | _ :: evs' => dropped evs'
  end.

Definition commit_ok (e : pevent) : Prop :=
  match e with PCommit cap n => 0 < n <= cap | _ => True end.

End Recorder.

(* ------------------------------------------------------------------ *)
(** ** src/recorder.c: [recorder_thread], [recorder_start], [recorder_stop]

    The consumer thread as a state machine.  Its program counter records
    where it is in the loop of [recorder_thread]; the transitions are the
    pieces of code run between two synchronisation points. *)

Module Consumer.
Import Rbuf Writer Recorder.

Inductive cpc :=
  | CWaiting              (* blocked in pthread_cond_wait *)
  | CWoken                (* pthread_cond_wait returned *)
  | CReady (samples : nat)(* left the wait loop with [samples] readable *)
  | CExited               (* break: !r->started *)
  | CFailed.              (* goto fail: the writer could not be opened *)

Record sys := mk_sys {
  s_rec : recorder;
  s_w : writer;
  s_last_write : timespec;
  s_cons : cpc;
  s_stop_calls : nat;      (* calls of the backend's r->stop *)
  s_log : list effect      (* effects of the writer calls *)
}.

Definition with_rec (s : sys) (r : recorder) : sys :=
  mk_sys r (s_w s) (s_last_write s) (s_cons s) (s_stop_calls s) (s_log s).
Definition with_cons (s : sys) (c : cpc) : sys :=
  mk_sys (s_rec s) (s_w s) (s_last_write s) c (s_stop_calls s) (s_log s).

(** [recorder_stop]: [r->started = false; r->stop(r);]. *)
Definition recorder_stop (s : sys) : sys :=
  mk_sys (with_started (s_rec s) false) (s_w s) (s_last_write s) (s_cons s)
    (S (s_stop_calls s)) (s_log s).

(** [pthread_cond_signal(&r->cond)]: wakes the consumer if it waits. *)
Definition cond_signal (s : sys) : sys :=
  match s_cons s with
  | CWaiting => with_cons s CWoken
  | _ => s
  end.

(** The tail of [recorder_start] after the backend's start returned. *)
Definition recorder_start_epilogue (s : sys) : sys :=
  cond_signal (with_rec s (with_started (s_rec s) false)).

(** Evaluation of [r->started && (samples = rbuf_read_linear_capacity(&r->rb)) == 0]
    and what follows it when it is false ([if (!r->started) break;]). *)
Definition wait_condition (s : sys) : sys :=
  let r := s_rec s in
  let samples := rbuf_read_linear_capacity (rb r) in
  if started r && (samples =? 0) then with_cons s CWaiting
  else if negb (started r) then with_cons s CExited
  else with_cons s (CReady samples).

(** The body of the wait loop after [pthread_cond_wait] returned at clock
    reading [now]: the split-time check, then the loop condition again. *)
Definition consumer_wake (s : sys) (now : timespec) : sys :=
  match s_cons s with
  | CWoken =>
      let r := s_rec s in
      let w := s_w s in
      let s1 :=
        if negb (output_split_time_ms r =? 0)%Z && opened w then
          if (ts_diff_ms now (s_last_write s) >? output_split_time_ms r)%Z then
            let '(w', effs) := writer_close w in
            mk_sys r w' (s_last_write s) (s_cons s) (s_stop_calls s) (s_log s ++ effs)
          else s
        else s in
      wait_condition s1
  | _ => s
  end.

(** One pass of the outer loop after the wait: open a new file when none is
    open ([name] and [res] are the file name and the create call's result),
    stamp [ts_last_write] with [now], hand [samples / channels] frames to the
    writer, commit the read, and start the next wait-loop check. *)
Definition consumer_write (s : sys) (now : timespec) (name : nat) (res : option nat)
  : sys :=
  match s_cons s with
  | CReady samples =>
      let r := s_rec s in
      let '(w1, effs1, rc) :=
        if opened (s_w s) then (s_w s, [], 0%Z)
        else writer_open (s_w s) name res in
      if (rc =? -1)%Z then
        mk_sys r w1 (s_last_write s) CFailed (s_stop_calls s) (s_log s ++ effs1)
      else
        let effs2 := [Data (handle w1) (samples / channels r)] in
        let r' := with_rb r (rbuf_read_linear_commit (rb r) samples) in
        wait_condition
          (mk_sys r' w1 now (s_cons s) (s_stop_calls s) (s_log s ++ effs1 ++ effs2))
  | _ => s
  end.

(** A producer call delivers its [pthread_cond_signal]s to the consumer. *)
Definition deliver (evs : list pevent) (s : sys) : sys :=
  if existsb (fun e => match e with PSignal => true | _ => false end) evs
  then cond_signal s else s.

End Consumer.

(* ------------------------------------------------------------------ *)
(** ** Samples through the ring buffer: the [memcpy] to [rb.tail] of
       [recorder_process] and the [w->write] from [rb.head] of
       [recorder_thread] (src/recorder.c) *)

Module RbufData.
Import Rbuf.

(** The memory block of the ring buffer: the sample held by the element
    that starts at each byte address. *)
Definition mem := nat -> Z.

Definition mem_set (m : mem) (a : nat) (x : Z) : mem :=
  fun a' => if a' =? a then x else m a'.

(** [memcpy(dst, buffer, pcm_format_size(format, n))] of [n] samples, each
    one element of [size] bytes. *)
Fixpoint memcpy_samples (m : mem) (dst size : nat) (buffer : list Z) : mem :=
  match buffer with
  | [] => m
  | x :: buffer' => memcpy_samples (mem_set m dst x) (dst + size) size buffer'
  end.

(** The [n] samples read from [src] onwards. *)
Fixpoint load_samples (m : mem) (src size n : nat) : list Z :=
  match n with
  | O => []
  | S n' => m src :: load_samples m (src + size) size n'
  end.

(** One batch of the loop of [recorder_process]:
    [memcpy(r->rb.tail, buffer, ...)] then [rbuf_write_linear_commit]; the
    batch is at most the linear write capacity queried before it. *)
Definition rb_put (rb : rbuf) (m : mem) (batch : list Z) : option (rbuf * mem) :=
  if length batch <=? rbuf_write_linear_capacity rb
  then Some (rbuf_write_linear_commit rb (length batch),
             memcpy_samples m (tail rb) (size rb) batch)
  else None.

(** One pass of the consumer of [recorder_thread]: the writer reads
    [samples] samples (a whole number of frames) from [r->rb.head], then
    [rbuf_read_linear_commit]; [samples] is at most the linear read
    capacity. *)
Definition rb_get (rb : rbuf) (m : mem) (samples : nat) : option (rbuf * list Z) :=
  if samples <=? rbuf_read_linear_capacity rb
  then Some (rbuf_read_linear_commit rb samples,
             load_samples m (head rb) (size rb) samples)
  else None.

Inductive io := Put (batch : list Z) | Get (samples : nat).

(** An interleaving of producer batches and consumer reads; the result
    carries the samples the consumer read, in order. *)
Fixpoint run_io (rb : rbuf) (m : mem) (ops : list io) : option (rbuf * mem * list Z) :=
  match ops with
  | [] => Some (rb, m, [])
  | Put batch :: ops' =>
      match rb_put rb m batch with
      | Some (rb', m') => run_io rb' m' ops'
      | None => None
      end
  | Get n :: ops' =>
      match rb_get rb m n with
      | Some (rb', out) =>
          match run_io rb' m ops' with
          | Some (rb'', m'', out') => Some (rb'', m'', out ++ out')
          | None => None
          end
      | None => None
      end
  end.

Fixpoint put_data (ops : list io) : list Z :=
  match ops with
  | [] => []
  | Put batch :: ops' => batch ++ put_data ops'
  | Get _ :: ops' => put_data ops'
  end.

(** The samples held, in reading order: [used] elements from [head] on,
    wrapping at [end]. *)
Definition rb_contents (rb : rbuf) (m : mem) : list Z :=
  let h := (head rb - begin rb) / size rb in
  map (fun i => m (begin rb + ((h + i) mod nmemb rb) * size rb)) (seq 0 (used rb)).

End RbufData.

(* ------------------------------------------------------------------ *)
(** ** Sequences of writer calls (src/writer.c, src/writer-*.c) *)

Module WriterOps.
Import Writer.

Inductive wop := WOpen (pathname : nat) (res : option nat) | WClose.

Definition writer_step (w : writer) (op : wop) : writer * list effect :=
  match op with
  | WOpen p res => let '(w', e, _) := writer_open w p res in (w', e)
  | WClose => writer_close w
  end.

Fixpoint writer_run (w : writer) (ops : list wop) : writer * list effect :=
  match ops with
  | [] => (w, [])
  | op :: ops' =>
      let '(w1, e1) := writer_step w op in
      let '(w2, e2) := writer_run w1 ops' in
      (w2, e1 ++ e2)
  end.

(** [writer->free]: [writer->close(writer)], then the memory is released. *)
Definition writer_free (w : writer) : list effect := snd (writer_close w).

(** Replays an effect log against the stream currently held ([None] = no
    stream): a create needs no stream held and holds its result; a header,
    a finalisation or a release needs the very stream it names, and a
    release drops it.  [None] is returned at the first effect that breaks
    this discipline. *)
Fixpoint handle_trace (held : option nat) (log : list effect) : option (option nat) :=
  match log with
  | [] => Some held
  | Create _ res :: log' =>
      match held with None => handle_trace res log' | Some _ => None end
  | Header h :: log' | Finalize h :: log' =>
      match held with
      | Some h' => if h' =? h then handle_trace held log' else None
      | None => None
      end
  | Release h :: log' =>
      match held with
      | Some h' => if h' =? h then handle_trace None log' else None
      | None => None
      end
  | Data _ _ :: log' => handle_trace held log'
  end.

End WriterOps.

(* ------------------------------------------------------------------ *)
(** ** src/recorder-alsa.c: one iteration of [alsa_capture_thread] *)

Module AlsaCapture.
Import Rbuf Recorder.

(** What [snd_pcm_readi] returns: a number of frames (with the samples it
    stored at [r->rb.tail]) or an error code. *)
Inductive readi_result :=
  | ReadiFrames (frames : nat) (data : list Z)
  | ReadiEPIPE | ReadiESTRPIPE | ReadiENODEV | ReadiError.

Inductive aevent :=
  | AReadi (frames : nat)   (* snd_pcm_readi(pcm, r->rb.tail, frames) *)
  | ARecover                (* snd_pcm_recover *)
  | AWarnOverrun            (* warn("PCM buffer overrun: ...") *)
  | AErrorLog               (* error("PCM read error: ...") *)
  | ACommit (samples : nat) (* rbuf_write_linear_commit *)
  | ASignal.                (* pthread_cond_signal *)

(** The body of [while (r->started)]; the boolean is [false] when the
    thread returns. *)
Definition alsa_capture_iteration (g : globals) (r : recorder) (res : readi_result)
    (t_loud t_now : timespec) : globals * recorder * list aevent * bool :=
  let samples := rbuf_write_linear_capacity (rb r) in
  let pcm_read_frames := rate r / 10 in
  let frames := samples / channels r in
  let req := Nat.min frames pcm_read_frames in
  match res with
  | ReadiEPIPE | ReadiESTRPIPE =>
      (g, r, [AReadi req; ARecover] ++
             (if (1 <=? verbose r)%Z then [AWarnOverrun] else []), true)
  | ReadiENODEV => (g, r, [AReadi req; AErrorLog], false)
  | ReadiError => (g, r, [AReadi req; AErrorLog], true)
  | ReadiFrames k data =>
      let '(g', m) := recorder_monitor g r data t_loud t_now in
      if (m =? 0)%Z then
        (g', with_rb r (rbuf_write_linear_commit (rb r) (k * channels r)),
         [AReadi req; ACommit (k * channels r); ASignal], true)
      else (g', r, [AReadi req; ASignal], true)
  end.

End AlsaCapture.

(* ------------------------------------------------------------------ *)
(** ** src/recorder.c: the end of [recorder_thread] and the allocation of
    [recorder_new] *)

Module ConsumerExit.
Import Writer WriterOps Recorder Consumer.

(** The [fail:] label of [recorder_thread], reached by [break] ([CExited])
    or by [goto fail] ([CFailed]): [w->free(w)] calls [writer->close] (every
    variant's free does so before releasing its own resources) and the
    thread returns.  The [info] message is not a writer call. *)
Definition recorder_thread_fail (s : sys) : sys :=
  match s_cons s with
  | CExited | CFailed =>
      mk_sys (s_rec s) (fst (writer_close (s_w s))) (s_last_write s) (s_cons s)
        (s_stop_calls s) (s_log s ++ writer_free (s_w s))
  | _ => s
  end.

End ConsumerExit.

Module RecorderAlloc.
Import Pcm Recorder.

(** [recorder_new] with both of its allocations: [c] is what
    [calloc(1, sizeof( *r))] returns ([None] = NULL, then [return NULL]),
    [m] what the ring buffer's [malloc] returns. *)
Definition recorder_new_calloc (c m : option nat) (format : pcm_format)
    (channels rate : nat) : option recorder :=
  match c with
  | None => None
  | Some _ => recorder_new m format channels rate
  end.

End RecorderAlloc.

(* ================================================================== *)
(** * Proofs *)

Module RbufFacts.
Import Rbuf.

Lemma ptr_sub (b x y s : nat) : b + x * s - (b + y * s) = (x - y) * s.
Proof. rewrite Nat.mul_sub_distr_r. lia. Qed.

Lemma ptr_div (b x y s : nat) : 0 < s -> (b + x * s - (b + y * s)) / s = x - y.
Proof. intros Hs. rewrite ptr_sub. apply Nat.div_mul. lia. Qed.

Lemma ptr_ltb (b x y s : nat) : 0 < s -> (b + x * s <? b + y * s) = (x <? y).
Proof.
  intros Hs. destruct (x <? y) eqn:E.
  - apply Nat.ltb_lt in E. apply Nat.ltb_lt. nia.
  - apply Nat.ltb_ge in E. apply Nat.ltb_ge. nia.
Qed.

Lemma ptr_eqb (b x y s : nat) : 0 < s -> (b + x * s =? b + y * s) = (x =? y).
Proof.
  intros Hs. destruct (x =? y) eqn:E.
  - apply Nat.eqb_eq in E. subst. apply Nat.eqb_refl.
  - apply Nat.eqb_neq in E. apply Nat.eqb_neq. intro C.
    apply E. apply (Nat.mul_cancel_r _ _ s); lia.
Qed.

Lemma rcap_mk (b h t u N s : nat) : 0 < s -> h <= N ->
  rbuf_read_linear_capacity (mk b h t u N s) =
  if h <? t then t - h else if u =? 0 then 0 else N - h.
Proof.
  intros Hs HN. unfold rbuf_read_linear_capacity, mk; simpl.
  rewrite ptr_ltb by exact Hs. rewrite !ptr_div by exact Hs. reflexivity.
Qed.

Lemma wcap_mk (b h t u N s : nat) : 0 < s ->
  rbuf_write_linear_capacity (mk b h t u N s) =
  if t <? h then h - t else if u =? N then 0 else N - t.
Proof.
  intros Hs. unfold rbuf_write_linear_capacity, mk; simpl.
  rewrite ptr_ltb by exact Hs. rewrite !ptr_div by exact Hs. reflexivity.
Qed.

Lemma mk_zero (b h t u N s : nat) :
  mk_rbuf b (b + t * s) b (b + N * s) u N s = mk b 0 t u N s /\
  mk_rbuf (b + h * s) b b (b + N * s) u N s = mk b h 0 u N s.
Proof. unfold mk. rewrite Nat.mul_0_l, Nat.add_0_r. split; reflexivity. Qed.

Lemma rcommit_mk (b h t u N s n : nat) : 0 < s ->
  rbuf_read_linear_commit (mk b h t u N s) n =
  mk b (if h + n =? N then 0 else h + n) t (u - n) N s.
Proof.
  intros Hs. unfold rbuf_read_linear_commit; simpl.
  replace (b + h * s + n * s) with (b + (h + n) * s) by lia.
  rewrite ptr_eqb by exact Hs.
  destruct (h + n =? N).
  - apply (proj1 (mk_zero b h t (u - n) N s)).
  - reflexivity.
Qed.

Lemma wcommit_mk (b h t u N s n : nat) : 0 < s ->
  rbuf_write_linear_commit (mk b h t u N s) n =
  mk b h (if t + n =? N then 0 else t + n) (u + n) N s.
Proof.
  intros Hs. unfold rbuf_write_linear_commit; simpl.
  replace (b + t * s + n * s) with (b + (t + n) * s) by lia.
  rewrite ptr_eqb by exact Hs.
  destruct (t + n =? N).
  - apply (proj2 (mk_zero b h 0 (u + n) N s)).
  - reflexivity.
Qed.

Lemma init_mk (p N s : nat) : rbuf_init (Some p) N s = Some (mk p 0 0 0 N s).
Proof. unfold rbuf_init, mk. rewrite Nat.mul_0_l, Nat.add_0_r. reflexivity. Qed.

Lemma einv_init (N : nat) : einv 0 0 0 N.
Proof. unfold einv. lia. Qed.

Lemma einv_le (h t u N : nat) : einv h t u N -> h <= N /\ t <= N /\ u <= N.
Proof. unfold einv. lia. Qed.

(** Closed-form capacities of a well-shaped buffer. *)
Lemma rcap_einv (b h t u N s : nat) : 0 < s -> einv h t u N ->
  rbuf_read_linear_capacity (mk b h t u N s) =
  if h <? t then t - h else if u =? 0 then 0 else N - h.
Proof. intros Hs Hi. apply rcap_mk; [exact Hs | apply (einv_le h t u N Hi)]. Qed.

Ltac case_bools :=
  repeat match goal with
  | |- context [?a <? ?b] =>
      let E := fresh "E" in destruct (a <? b) eqn:E;
      [apply Nat.ltb_lt in E | apply Nat.ltb_ge in E]
  | |- context [?a =? ?b] =>
      let E := fresh "E" in destruct (a =? b) eqn:E;
      [apply Nat.eqb_eq in E | apply Nat.eqb_neq in E]
  end.

Lemma einv_write (h t u N n : nat) : einv h t u N ->
  n <= (if t <? h then h - t else if u =? N then 0 else N - t) ->
  einv h (if t + n =? N then 0 else t + n) (u + n) N.
Proof. unfold einv. case_bools; lia. Qed.

Lemma einv_read (h t u N n : nat) : einv h t u N ->
  n <= (if h <? t then t - h else if u =? 0 then 0 else N - h) ->
  einv (if h + n =? N then 0 else h + n) t (u - n) N.
Proof. unfold einv. case_bools; lia. Qed.

Lemma run_mk (cs : list commit) : forall b h t u N s rb,
  0 < s -> einv h t u N -> run_commits (mk b h t u N s) cs = Some rb ->
  exists h' t' u', rb = mk b h' t' u' N s /\ einv h' t' u' N /\
    u' + total_read cs = u + total_written cs.
Proof.
  induction cs as [|c cs IH]; intros b h t u N s rb Hs Hi Hrun; simpl in Hrun.
  - injection Hrun as <-. exists h, t, u. split; [reflexivity|split; [exact Hi|simpl; lia]].
  - destruct c as [n|n]; simpl in Hrun.
    + rewrite wcap_mk in Hrun by exact Hs.
      destruct (n <=? _) eqn:Hn; [|discriminate].
      apply Nat.leb_le in Hn. rewrite wcommit_mk in Hrun by exact Hs.
      destruct (IH _ _ _ _ _ _ _ Hs (einv_write h t u N n Hi Hn) Hrun)
        as (h' & t' & u' & -> & Hi' & Hu).
      exists h', t', u'. split; [reflexivity|split; [exact Hi'|simpl; lia]].
    + rewrite (rcap_einv b h t u N s Hs Hi) in Hrun.
      destruct (n <=? _) eqn:Hn; [|discriminate].
      apply Nat.leb_le in Hn. rewrite rcommit_mk in Hrun by exact Hs.
      destruct (IH _ _ _ _ _ _ _ Hs (einv_read h t u N n Hi Hn) Hrun)
        as (h' & t' & u' & -> & Hi' & Hu).
      exists h', t', u'. split; [reflexivity|split; [exact Hi'|simpl]].
      destruct Hi as [_ [_ Hc]]. revert Hn Hu. case_bools; lia.
Qed.

Lemma reachable_mk (rb : rbuf) : reachable rb ->
  exists b h t u N s, 0 < s /\ rb = mk b h t u N s /\ einv h t u N.
Proof.
  intros (p & N & s & cs & Hs & rb0 & Hinit & Hrun).
  rewrite init_mk in Hinit. injection Hinit as <-.
  destruct (run_mk cs p 0 0 0 N s rb Hs (einv_init N) Hrun)
    as (h & t & u & -> & Hi & _).
  exists p, h, t, u, N, s. auto.
Qed.


Lemma einv_caps (h t u N : nat) : einv h t u N ->
  let r := (if h <? t then t - h else if u =? 0 then 0 else N - h) in
  let w := (if t <? h then h - t else if u =? N then 0 else N - t) in
  u <= N /\ r <= u /\ w <= N - u /\ (r = u \/ w = N - u) /\
  (w = 0 <-> u = N) /\ (r = 0 <-> u = 0).
Proof. unfold einv. simpl. case_bools; lia. Qed.

Lemma run_align (ch : nat) (cs : list commit) : forall b h t u N s rb,
  0 < s -> einv h t u N -> Nat.divide ch h -> Nat.divide ch t -> Nat.divide ch N ->
  Forall (fun c => Nat.divide ch (commit_amount c)) cs ->
  run_commits (mk b h t u N s) cs = Some rb ->
  exists h' t' u', rb = mk b h' t' u' N s /\ einv h' t' u' N /\
    Nat.divide ch h' /\ Nat.divide ch t'.
Proof.
  induction cs as [|c cs IH]; intros b h t u N s rb Hs Hi Dh Dt DN Hall Hrun;
    simpl in Hrun.
  - injection Hrun as <-. exists h, t, u. auto.
  - inversion Hall as [|? ? Dc Hall']; subst. simpl in Dc.
    destruct c as [n|n]; simpl in Hrun, Dc.
    + rewrite wcap_mk in Hrun by exact Hs.
      destruct (n <=? _) eqn:Hn; [|discriminate].
      apply Nat.leb_le in Hn. rewrite wcommit_mk in Hrun by exact Hs.
      eapply IH; [exact Hs | exact (einv_write h t u N n Hi Hn) | exact Dh | |
                  exact DN | exact Hall' | exact Hrun].
      destruct (t + n =? N); [apply Nat.divide_0_r | apply Nat.divide_add_r; auto].
    + rewrite (rcap_einv b h t u N s Hs Hi) in Hrun.
      destruct (n <=? _) eqn:Hn; [|discriminate].
      apply Nat.leb_le in Hn. rewrite rcommit_mk in Hrun by exact Hs.
      eapply IH; [exact Hs | exact (einv_read h t u N n Hi Hn) | | exact Dt |
                  exact DN | exact Hall' | exact Hrun].
      destruct (h + n =? N); [apply Nat.divide_0_r | apply Nat.divide_add_r; auto].
Qed.

End RbufFacts.

Module RbufClaims.
Import Rbuf RbufFacts.

(** C1 (counterexample).  Ten one-byte elements; write 6 then read 5: the
    read and write linear capacities sum to 1 + 4 = 5, below
    nmemb - used = 9, because the free run before [head] lies past the wrap
    point and is not linear for the writer. *)
Lemma rbuf_capacity_sum_counterexample :
  match rbuf_init (Some 0) 10 1 with
  | Some rb0 =>
      match run_commits rb0 [WrCommit 6; RdCommit 5] with
      | Some rb =>
          rbuf_read_linear_capacity rb = 1 /\ rbuf_write_linear_capacity rb = 4 /\
          used rb = 1 /\
          rbuf_read_linear_capacity rb + rbuf_write_linear_capacity rb
            < nmemb rb - used rb
      | None => False
      end
  | None => False
  end.
Proof. vm_compute. repeat split; lia. Qed.

(** C1 (amended).  Along every sequence of commits starting from
    [rbuf_init], each at most the linear capacity queried just before it,
    [used] equals cumulative writes minus cumulative reads and stays within
    [0, nmemb]; the read linear capacity never exceeds [used], the write
    linear capacity never exceeds [nmemb - used], and at least one of the two
    is exact (the read side when the stored data does not wrap, the write
    side when the free space does not wrap). *)
Theorem rbuf_counters_invariant (p N s : nat) (rb0 : rbuf) (cs : list commit)
    (rb : rbuf) :
  0 < s -> rbuf_init (Some p) N s = Some rb0 -> run_commits rb0 cs = Some rb ->
  used rb + total_read cs = total_written cs /\ used rb <= nmemb rb /\
  rbuf_read_linear_capacity rb <= used rb /\
  rbuf_write_linear_capacity rb <= nmemb rb - used rb /\
  (rbuf_read_linear_capacity rb = used rb \/
   rbuf_write_linear_capacity rb = nmemb rb - used rb).
Proof.
  intros Hs Hinit Hrun. rewrite init_mk in Hinit. injection Hinit as <-.
  destruct (run_mk cs p 0 0 0 N s rb Hs (einv_init N) Hrun)
    as (h & t & u & -> & Hi & Hu).
  rewrite (rcap_einv p h t u N s Hs Hi), (wcap_mk p h t u N s Hs). simpl.
  destruct (einv_caps h t u N Hi) as (H1 & H2 & H3 & H4 & _). simpl in *.
  repeat split; lia.
Qed.

Lemma rbuf_counters_invariant_witness :
  exists rb,
  run_commits (mk_rbuf 0 0 0 10 0 10 1) [WrCommit 6; RdCommit 5] = Some rb /\
  used rb + total_read [WrCommit 6; RdCommit 5] =
    total_written [WrCommit 6; RdCommit 5] /\
  used rb <= nmemb rb /\
  rbuf_read_linear_capacity rb <= used rb /\
  rbuf_write_linear_capacity rb <= nmemb rb - used rb /\
  (rbuf_read_linear_capacity rb = used rb \/
   rbuf_write_linear_capacity rb = nmemb rb - used rb).
Proof.
  eexists. split; [reflexivity|].
  apply (rbuf_counters_invariant 0 10 1 (mk_rbuf 0 0 0 10 0 10 1));
    [lia | reflexivity | reflexivity].
Defined.

(** C4.  In every reachable state the write linear capacity is 0 exactly when
    the buffer is full and the read linear capacity is 0 exactly when it is
    empty; at [head = tail] (with [nmemb > 0]) [used] tells empty (read 0,
    write positive) from full (write 0, read positive). *)
Theorem rbuf_empty_full_disambiguation (rb : rbuf) :
  reachable rb ->
  (rbuf_write_linear_capacity rb = 0 <-> used rb = nmemb rb) /\
  (rbuf_read_linear_capacity rb = 0 <-> used rb = 0) /\
  (head rb = tail rb -> 0 < nmemb rb ->
     (used rb = 0 -> rbuf_read_linear_capacity rb = 0 /\
                     0 < rbuf_write_linear_capacity rb) /\
     (used rb = nmemb rb -> rbuf_write_linear_capacity rb = 0 /\
                            0 < rbuf_read_linear_capacity rb)).
Proof.
  intros Hr. destruct (reachable_mk rb Hr) as (b & h & t & u & N & s & Hs & -> & Hi).
  rewrite (rcap_einv b h t u N s Hs Hi), (wcap_mk b h t u N s Hs). simpl.
  assert (Hht : b + h * s = b + t * s -> h = t).
  { intro E. apply (Nat.mul_cancel_r _ _ s); lia. }
  revert Hht. unfold einv in Hi. case_bools; intros Hht;
    repeat split; intros; lia.
Qed.

Lemma rbuf_empty_full_disambiguation_witness :
  reachable (mk_rbuf 0 0 0 4 2 2 2) /\
  (rbuf_write_linear_capacity (mk_rbuf 0 0 0 4 2 2 2) = 0 <->
     used (mk_rbuf 0 0 0 4 2 2 2) = nmemb (mk_rbuf 0 0 0 4 2 2 2)) /\
  (rbuf_read_linear_capacity (mk_rbuf 0 0 0 4 2 2 2) = 0 <->
     used (mk_rbuf 0 0 0 4 2 2 2) = 0) /\
  (head (mk_rbuf 0 0 0 4 2 2 2) = tail (mk_rbuf 0 0 0 4 2 2 2) ->
   0 < nmemb (mk_rbuf 0 0 0 4 2 2 2) ->
     (used (mk_rbuf 0 0 0 4 2 2 2) = 0 ->
        rbuf_read_linear_capacity (mk_rbuf 0 0 0 4 2 2 2) = 0 /\
        0 < rbuf_write_linear_capacity (mk_rbuf 0 0 0 4 2 2 2)) /\
     (used (mk_rbuf 0 0 0 4 2 2 2) = nmemb (mk_rbuf 0 0 0 4 2 2 2) ->
        rbuf_write_linear_capacity (mk_rbuf 0 0 0 4 2 2 2) = 0 /\
        0 < rbuf_read_linear_capacity (mk_rbuf 0 0 0 4 2 2 2))).
Proof.
  assert (R : reachable (mk_rbuf 0 0 0 4 2 2 2)).
  { exists 0, 2, 2, [WrCommit 2]. split; [lia|].
    exists (mk_rbuf 0 0 0 4 0 2 2). split; reflexivity. }
  split; [exact R | apply rbuf_empty_full_disambiguation; exact R].
Defined.

End RbufClaims.

Module WriterClaims.
Import Writer.

(** C8.  For every writer variant and every writer state, a second [close]
    right after a first one leaves the state as the first left it and has no
    effect at all (no finalisation, no release). *)
Theorem writer_close_idempotent (w : writer) :
  let '(w1, e1) := writer_close w in
  let '(w2, e2) := writer_close w1 in
  w2 = w1 /\ e2 = [].
Proof. destruct w as [t o [h|]]; destruct t; split; reflexivity. Qed.

(** Every variant but the raw one keeps the open contract: on success it
    returns 0 with the writer opened, on failure -1 with the writer closed. *)
Lemma writer_open_contract_siblings (w : writer) (path : nat) (res : option nat) :
  wtype w <> RAW ->
  let '(w', _, rc) := writer_open w path res in
  (res <> None -> rc = 0%Z /\ opened w' = true) /\
  (res = None -> rc = (-1)%Z /\ opened w' = false).
Proof.
  intros Ht. destruct w as [t o [h|]]; destruct t; try (exfalso; apply Ht; reflexivity);
    destruct res; simpl; split; intros E; try congruence; split; reflexivity.
Qed.

(** C6 (code_bug).  [writer_raw_open] tests [fopen(...) != NULL]: when the
    file is created it returns -1 and leaves the writer closed (the stream
    stays referenced by [w->f]); when [fopen] fails it returns 0 and marks the
    writer opened. *)
Theorem writer_raw_open_inverted :
  writer_open (writer_new RAW) 1 (Some 7) =
    (mk_writer RAW false (Some 7), [Create 1 (Some 7)], (-1)%Z) /\
  writer_open (writer_new RAW) 1 None =
    (mk_writer RAW true None, [Create 1 None], 0%Z).
Proof. split; reflexivity. Qed.

End WriterClaims.

Module ProducerFacts.
Import Rbuf RbufFacts Recorder.

Lemma process_loop_spec (fuel : nat) : forall v rb samples,
  samples <= fuel ->
  let '(rb', evs) := process_loop fuel v rb samples in
  Forall commit_ok evs /\ committed evs + dropped evs = samples /\
  (In PWarnOverrun evs <-> (1 <= v)%Z /\ 0 < dropped evs) /\
  (0 < dropped evs -> rbuf_write_linear_capacity rb' = 0).
Proof.
  induction fuel as [|fuel IH]; intros v rb samples Hle; simpl.
  - assert (samples = 0) by lia. subst. simpl.
    split; [constructor|]. split; [reflexivity|].
    split; [split; [intros []|intros [_ H]; lia] | lia].
  - destruct (samples =? 0) eqn:E0.
    + apply Nat.eqb_eq in E0. subst. simpl.
      split; [constructor|]. split; [reflexivity|].
      split; [split; [intros []|intros [_ H]; lia] | lia].
    + apply Nat.eqb_neq in E0.
      destruct (rbuf_write_linear_capacity rb =? 0) eqn:Ec.
      * apply Nat.eqb_eq in Ec.
        destruct (1 <=? v)%Z eqn:Ev; simpl.
        -- apply Z.leb_le in Ev.
           split; [repeat constructor|]. split; [lia|].
           split; [split; [intros _; lia | intros _; left; reflexivity] | intros _; exact Ec].
        -- apply Z.leb_gt in Ev.
           split; [repeat constructor|]. split; [lia|].
           split; [split; [intros [H|[]]; discriminate | intros [H _]; lia] | intros _; exact Ec].
      * apply Nat.eqb_neq in Ec.
        set (b := Nat.min samples (rbuf_write_linear_capacity rb)).
        assert (Hb : 0 < b <= rbuf_write_linear_capacity rb /\ b <= samples) by (unfold b; lia).
        specialize (IH v (rbuf_write_linear_commit rb b) (samples - b) ltac:(lia)).
        destruct (process_loop fuel v _ _) as [rb' evs].
        destruct IH as (IH1 & IH2 & IH3 & IH4). simpl.
        split; [constructor; [simpl; lia | constructor; [exact I | exact IH1]]|].
        split; [lia|]. split; [|exact IH4].
        split.
        -- intros [H|[H|H]]; try discriminate. apply IH3; exact H.
        -- intros H. right; right. apply IH3; exact H.
Qed.

End ProducerFacts.

Module ProducerClaims.
Import Rbuf RbufFacts Pcm Recorder ProducerFacts.

(** C2.  [recorder_process] always returns 0.  A chunk that
    [recorder_monitor] does not classify live is left alone.  A live chunk of
    [S] samples is copied in slices, each positive and at most the write
    linear capacity queried just before it; the samples that remain when a
    query returns 0 are dropped (the loop leaves, it never waits), committed
    plus dropped is [S], the overrun warning is logged exactly when something
    was dropped and verbosity is at least 1, and after a drop the write
    linear capacity is 0.  Scenario: 600 samples against a linear write
    capacity of 400 with nothing free past the wrap point give one commit of
    400, then a second query returning 0, a logged overrun and 200 dropped
    samples. *)
Theorem recorder_process_overrun_policy :
  (forall (g : globals) (r : recorder) (buffer : list Z) (t1 t2 : timespec),
    let '(g', r', evs, ret) := recorder_process g r buffer t1 t2 in
    ret = 0%Z /\
    (snd (recorder_monitor g r buffer t1 t2) <> 0%Z -> evs = [] /\ r' = r) /\
    (snd (recorder_monitor g r buffer t1 t2) = 0%Z ->
       Forall commit_ok evs /\ committed evs + dropped evs = length buffer /\
       (In PWarnOverrun evs <-> (1 <= verbose r)%Z /\ 0 < dropped evs) /\
       (0 < dropped evs -> rbuf_write_linear_capacity (rb r') = 0))) /\
  (let r := mk_recorder PCM_FORMAT_S16LE 1 8000 (mk_rbuf 0 1200 0 2000 600 1000 2)
              true (-50)%R 500%Z 0%Z false 1%Z in
   let t := mk_ts 0%Z 0%Z in
   rbuf_write_linear_capacity (rb r) = 400 /\
   recorder_process (mk_globals t) r (repeat 0%Z 600) t t =
     (mk_globals t, with_rb r (mk_rbuf 0 0 0 2000 1000 1000 2),
      [PCommit 400 400; PSignal; PWarnOverrun; PBreak 200], 0%Z)).
Proof.
  split.
  - intros g r buffer t1 t2. unfold recorder_process.
    destruct (recorder_monitor g r buffer t1 t2) as [g' m] eqn:Em. simpl snd.
    destruct (m =? 0)%Z eqn:Hm; simpl.
    + apply Z.eqb_eq in Hm. subst m.
      pose proof (process_loop_spec (length buffer) (verbose r) (rb r)
                    (length buffer) (le_n _)) as Hs.
      destruct (process_loop _ _ _ _) as [rb' evs].
      split; [reflexivity|]. split; [intros H; contradiction H; reflexivity|].
      intros _. exact Hs.
    + apply Z.eqb_neq in Hm.
      split; [reflexivity|]. split; [intros _; split; reflexivity|].
      intros H. contradiction.
  - simpl. split; [reflexivity|].
    unfold recorder_process, recorder_monitor. simpl monitor.
    destruct (Rgt_dec _ _); vm_compute; reflexivity.
Qed.

(** C10.  With the ring buffer [recorder_new] allocates
    ([channels * (rate / 10) * 8] elements) and commits that are whole frames
    (multiples of [channels]), every read linear capacity is a multiple of
    [channels], so [samples / channels] frames cover exactly the samples the
    consumer commits as read; the write linear capacity is a multiple too, so
    [recorder_process] slices of a whole-frame chunk stay whole frames. *)
Theorem frame_alignment (p : nat) (fmt : pcm_format) (ch rate : nat)
    (r : recorder) (cs : list commit) (rb' : rbuf) :
  0 < ch -> recorder_new (Some p) fmt ch rate = Some r ->
  Forall (fun c => Nat.divide ch (commit_amount c)) cs ->
  run_commits (rb r) cs = Some rb' ->
  rbuf_read_linear_capacity rb' mod ch = 0 /\
  rbuf_read_linear_capacity rb' / ch * ch = rbuf_read_linear_capacity rb' /\
  rbuf_write_linear_capacity rb' mod ch = 0 /\
  (forall samples, samples mod ch = 0 ->
     Nat.min samples (rbuf_write_linear_capacity rb') mod ch = 0).
Proof.
  intros Hch Hnew Hall Hrun.
  unfold recorder_new in Hnew. rewrite init_mk in Hnew.
  injection Hnew as <-. simpl in Hrun.
  set (N := recorder_rb_nmemb ch rate) in *.
  set (s := pcm_format_size fmt 1) in *.
  assert (Hs : 0 < s) by (unfold s; destruct fmt; simpl; lia).
  assert (DN : Nat.divide ch N).
  { unfold N, recorder_rb_nmemb. exists ((rate / 10) * 8). lia. }
  destruct (run_align ch cs p 0 0 0 N s rb' Hs (einv_init N)
              (Nat.divide_0_r ch) (Nat.divide_0_r ch) DN Hall Hrun)
    as (h & t & u & -> & Hi & Dh & Dt).
  rewrite (rcap_einv p h t u N s Hs Hi), (wcap_mk p h t u N s Hs).
  assert (Hr : Nat.divide ch (if h <? t then t - h else if u =? 0 then 0 else N - h)).
  { destruct (h <? t); [apply Nat.divide_sub_r; auto|].
    destruct (u =? 0); [apply Nat.divide_0_r | apply Nat.divide_sub_r; auto]. }
  assert (Hw : Nat.divide ch (if t <? h then h - t else if u =? N then 0 else N - t)).
  { destruct (t <? h); [apply Nat.divide_sub_r; auto|].
    destruct (u =? N); [apply Nat.divide_0_r | apply Nat.divide_sub_r; auto]. }
  apply Nat.Lcm0.mod_divide in Hr. apply Nat.Lcm0.mod_divide in Hw.
  split; [exact Hr|]. split.
  - pose proof (Nat.div_mod_eq (if h <? t then t - h else if u =? 0 then 0 else N - h) ch).
    lia.
  - split; [exact Hw|]. intros n Hn.
    destruct (Nat.min_dec n (if t <? h then h - t else if u =? N then 0 else N - t))
      as [E|E]; rewrite E; assumption.
Qed.

Lemma frame_alignment_witness :
  exists r rb',
  recorder_new (Some 0) PCM_FORMAT_U8 2 10 = Some r /\
  run_commits (rb r) [WrCommit 6; RdCommit 4] = Some rb' /\
  rbuf_read_linear_capacity rb' mod 2 = 0 /\
  rbuf_read_linear_capacity rb' / 2 * 2 = rbuf_read_linear_capacity rb' /\
  rbuf_write_linear_capacity rb' mod 2 = 0 /\
  (forall samples, samples mod 2 = 0 ->
     Nat.min samples (rbuf_write_linear_capacity rb') mod 2 = 0).
Proof.
  eexists; eexists. split; [reflexivity|]. split; [reflexivity|].
  eapply (frame_alignment 0 PCM_FORMAT_U8 2 10 _ [WrCommit 6; RdCommit 4]);
    [lia | reflexivity | | reflexivity].
  apply Forall_forall. intros c Hc. simpl in Hc.
  destruct Hc as [<-|[<-|[]]]; simpl; [exists 3 | exists 2]; reflexivity.
Defined.

End ProducerClaims.

Module MonitorFacts.
Import Pcm Recorder.

Lemma pcm_sum2_silent (format : pcm_format) (buffer : list Z) :
  Forall (fun v => pcm_sample_value format v = 0%Z) buffer ->
  pcm_sum2 format buffer = 0%Z.
Proof.
  intros H. unfold pcm_sum2.
  assert (G : forall acc, fold_left (fun acc v =>
     (acc + pcm_sample_value format v * pcm_sample_value format v)%Z) buffer acc = acc).
  { induction H as [|v l Hv _ IH]; intros acc; simpl; [reflexivity|].
    rewrite Hv, IH. lia. }
  apply G.
Qed.

(** A silent chunk (every sample at the format's zero level, or no sample at
    all) yields the -96 dB floor. *)
Lemma pcm_rms_db_silent (format : pcm_format) (buffer : list Z) :
  Forall (fun v => pcm_sample_value format v = 0%Z) buffer ->
  pcm_rms_db format buffer = (-96)%R.
Proof.
  intros H. unfold pcm_rms_db. rewrite (pcm_sum2_silent format buffer H).
  destruct (0 <? length buffer).
  - unfold Rdiv. rewrite Rmult_0_l, sqrt_0.
    destruct (Rlt_dec 0 0); [lra | reflexivity].
  - destruct (Rlt_dec 0 0); [lra | reflexivity].
Qed.

(** A single full-scale S16LE sample is at 0 dB. *)
Lemma pcm_rms_db_full_scale : pcm_rms_db PCM_FORMAT_S16LE [32767%Z] = 0%R.
Proof.
  unfold pcm_rms_db. change (length [32767%Z]) with 1. change (0 <? 1) with true.
  cbv beta iota.
  replace (pcm_sum2 PCM_FORMAT_S16LE [32767%Z]) with 1073676289%Z by reflexivity.
  assert (Hs : sqrt (IZR 1073676289 / INR 1) = 32767%R).
  { replace (IZR 1073676289) with (IZR 32767 * IZR 32767)%R
      by (rewrite <- mult_IZR; reflexivity).
    replace (INR 1) with 1%R by reflexivity.
    unfold Rdiv. rewrite Rinv_1, Rmult_1_r. apply sqrt_square. lra. }
  rewrite Hs. destruct (Rlt_dec 0 32767); [|lra].
  replace (32767 / 32767)%R with 1%R by field. rewrite ln_1.
  unfold Rdiv. rewrite Rmult_0_l, Rmult_0_r. reflexivity.
Qed.

Lemma ts_diff_exact (a b : Z) : ((a - b) mod 1000000 = 0)%Z ->
  ts_diff_ms (ts_of_ns a) (ts_of_ns b) = ((a - b) / 1000000)%Z.
Proof.
  intros Hm. unfold ts_diff_ms, ts_of_ns. simpl.
  apply Z.mod_divide in Hm; [|lia]. destruct Hm as [d Hd].
  pose proof (Z.div_mod a 1000000000 ltac:(lia)) as Ha.
  pose proof (Z.div_mod b 1000000000 ltac:(lia)) as Hb.
  set (qa := (a / 1000000000)%Z) in *. set (ra := (a mod 1000000000)%Z) in *.
  set (qb := (b / 1000000000)%Z) in *. set (rb := (b mod 1000000000)%Z) in *.
  replace (ra - rb)%Z with ((d - 1000 * (qa - qb)) * 1000000)%Z by lia.
  rewrite Z.quot_mul by lia. rewrite Hd, Z.div_mul by lia. lia.
Qed.

Lemma monitor_silent (g : globals) (r : recorder) (buffer : list Z) (t1 t2 : timespec) :
  monitor r = false -> (-96 <= activation_threshold_level_db r)%R ->
  Forall (fun v => pcm_sample_value (format r) v = 0%Z) buffer ->
  recorder_monitor g r buffer t1 t2 =
    (g, if (ts_diff_ms t2 (activation_time g) <=? activation_fadeout_time_ms r)%Z
        then 0%Z else (-1)%Z).
Proof.
  intros Hm Ht Hs. unfold recorder_monitor. rewrite Hm, (pcm_rms_db_silent _ _ Hs).
  destruct (Rgt_dec (-96) _); [lra | destruct (_ <=? _)%Z; reflexivity].
Qed.

Lemma monitor_loud (g : globals) (r : recorder) (buffer : list Z) (t1 t2 : timespec) :
  monitor r = false ->
  (pcm_rms_db (format r) buffer > activation_threshold_level_db r)%R ->
  recorder_monitor g r buffer t1 t2 =
    (mk_globals t1, if (ts_diff_ms t2 t1 <=? activation_fadeout_time_ms r)%Z
                    then 0%Z else (-1)%Z).
Proof.
  intros Hm Hl. unfold recorder_monitor. rewrite Hm.
  destruct (Rgt_dec _ _); [destruct (_ <=? _)%Z; reflexivity | contradiction].
Qed.

Lemma monitor_run_cons (g : globals) (r : recorder) (buffer : list Z)
    (t1 t2 : timespec) chunks :
  monitor_run g r ((buffer, t1, t2) :: chunks) =
  let '(g', m) := recorder_monitor g r buffer t1 t2 in m :: monitor_run g' r chunks.
Proof. reflexivity. Qed.

Lemma monitor_run_silent (r : recorder) (silent : nat -> list Z) (n0 : Z) :
  monitor r = false -> (-96 <= activation_threshold_level_db r)%R ->
  (forall k, Forall (fun v => pcm_sample_value (format r) v = 0%Z) (silent k)) ->
  forall ks g, activation_time g = ts_of_ns n0 ->
  monitor_run g r
    (map (fun k => let t := ts_of_ns (n0 + Z.of_nat k * 100000000) in (silent k, t, t)) ks) =
  map (fun k => if (Z.of_nat k * 100 <=? activation_fadeout_time_ms r)%Z
                then 0%Z else (-1)%Z) ks.
Proof.
  intros Hm Ht Hs ks. induction ks as [|k ks IH]; intros g Hg; simpl; [reflexivity|].
  rewrite (monitor_silent g r (silent k) _ _ Hm Ht (Hs k)). rewrite Hg.
  rewrite ts_diff_exact.
  - replace (n0 + Z.of_nat k * 100000000 - n0)%Z with ((Z.of_nat k * 100) * 1000000)%Z
      by lia.
    rewrite Z.div_mul by lia. f_equal. apply IH. exact Hg.
  - replace (n0 + Z.of_nat k * 100000000 - n0)%Z with ((Z.of_nat k * 100) * 1000000)%Z
      by lia.
    apply Z.mod_mul. lia.
Qed.

End MonitorFacts.

Module MonitorClaims.
Import Rbuf Pcm Recorder MonitorFacts.

(** C5.  Threshold -50 dB, fadeout 500 ms, not in monitor mode: a chunk
    whose RMS exceeds the threshold (its first clock reading becomes the
    activation time; its second reading is at most 500 ms later), followed by
    ten silent chunks read at 100 ms steps after that activation time, is
    classified live (0) for the loud chunk and the first five silent chunks
    and not live (-1) from the sixth silent chunk on. *)
Theorem activation_fadeout_scenario (g : globals) (r : recorder)
    (loud : list Z) (silent : nat -> list Z) (n0 : Z) (t_now0 : timespec) :
  monitor r = false ->
  activation_threshold_level_db r = (-50)%R ->
  activation_fadeout_time_ms r = 500%Z ->
  (pcm_rms_db (format r) loud > -50)%R ->
  (forall k, Forall (fun v => pcm_sample_value (format r) v = 0%Z) (silent k)) ->
  (0 <= ts_diff_ms t_now0 (ts_of_ns n0) <= 500)%Z ->
  monitor_run g r
    ((loud, ts_of_ns n0, t_now0) ::
     map (fun k => let t := ts_of_ns (n0 + Z.of_nat k * 100000000) in (silent k, t, t))
         (seq 1 10)) =
  [0; 0; 0; 0; 0; 0; -1; -1; -1; -1; -1]%Z.
Proof.
  intros Hm Ht Hf Hl Hs Hd. rewrite monitor_run_cons.
  rewrite (monitor_loud g r loud _ _ Hm ltac:(rewrite Ht; exact Hl)).
  rewrite Hf. destruct Hd as [_ Hd]. apply Z.leb_le in Hd. rewrite Hd.
  cbv beta iota.
  rewrite (monitor_run_silent r silent n0 Hm ltac:(rewrite Ht; lra) Hs);
    [|reflexivity].
  rewrite Hf. reflexivity.
Qed.

Lemma activation_fadeout_scenario_witness :
  monitor_run globals_init
    (mk_recorder PCM_FORMAT_S16LE 1 8000 (mk_rbuf 0 0 0 0 0 0 2) true
       (-50)%R 500%Z 0%Z false 0%Z)
    (([32767%Z], ts_of_ns 0, ts_of_ns 0) ::
     map (fun k => let t := ts_of_ns (0 + Z.of_nat k * 100000000) in ([0%Z], t, t))
         (seq 1 10)) =
  [0; 0; 0; 0; 0; 0; -1; -1; -1; -1; -1]%Z.
Proof.
  apply (activation_fadeout_scenario globals_init
           (mk_recorder PCM_FORMAT_S16LE 1 8000 (mk_rbuf 0 0 0 0 0 0 2) true
              (-50)%R 500%Z 0%Z false 0%Z)
           [32767%Z] (fun _ => [0%Z]) 0%Z (ts_of_ns 0)).
  - reflexivity.
  - reflexivity.
  - reflexivity.
  - simpl format. rewrite pcm_rms_db_full_scale. lra.
  - intros k. repeat constructor.
  - vm_compute. split; discriminate.
Defined.

(** C9 (counterexample).  Two recorder instances (same configuration,
    distinct ring buffers) in one process, at 10 s on the monotonic clock
    with the activation time still at its initial 0: on its own, instance B
    classifies a silent chunk as not live; after instance A has processed a
    full-scale chunk at the same instant, B classifies the same silent chunk
    as live, because [activation_time] is a [static] of [recorder_monitor]
    shared by all instances. *)
Lemma recorder_instances_interfere_counterexample :
  let rA := mk_recorder PCM_FORMAT_S16LE 1 8000 (mk_rbuf 0 0 0 0 0 0 2) true
              (-50)%R 500%Z 0%Z false 0%Z in
  let rB := mk_recorder PCM_FORMAT_S16LE 1 8000 (mk_rbuf 100 100 100 100 0 0 2) true
              (-50)%R 500%Z 0%Z false 0%Z in
  let T := ts_of_ns 10000000000 in
  snd (recorder_monitor globals_init rB [0%Z] T T) = (-1)%Z /\
  snd (recorder_monitor (fst (recorder_monitor globals_init rA [32767%Z] T T))
         rB [0%Z] T T) = 0%Z.
Proof.
  intros rA rB T. split.
  - rewrite (monitor_silent globals_init rB [0%Z] T T eq_refl
               ltac:(simpl; lra) ltac:(repeat constructor)).
    reflexivity.
  - rewrite (monitor_loud globals_init rA [32767%Z] T T eq_refl
               ltac:(simpl; rewrite pcm_rms_db_full_scale; lra)).
    simpl fst.
    rewrite (monitor_silent _ rB [0%Z] T T eq_refl
               ltac:(simpl; lra) ltac:(repeat constructor)).
    reflexivity.
Qed.

(** C9 (amended).  Recorder instances share exactly one piece of mutable
    state, the activation time.  [recorder_process] on instance A changes
    only A's ring buffer among A's fields and no other instance's fields (an
    instance is its own record), and updates the shared state as
    [recorder_monitor] does; a call on A whose chunk does not exceed A's
    threshold, or made in monitor mode, leaves every later decision of any
    instance B unchanged, while a loud call on A (not in monitor mode) sets
    the shared activation time to A's clock reading. *)
Theorem recorder_instances_share_activation (g : globals) (rA rB : recorder)
    (bufA bufB : list Z) (tA1 tA2 tB1 tB2 : timespec) :
  (let '(g', rA', _, _) := recorder_process g rA bufA tA1 tA2 in
     g' = fst (recorder_monitor g rA bufA tA1 tA2) /\ rA' = with_rb rA (rb rA')) /\
  ((monitor rA = true \/
    ~ (pcm_rms_db (format rA) bufA > activation_threshold_level_db rA)%R) ->
   recorder_monitor (fst (recorder_monitor g rA bufA tA1 tA2)) rB bufB tB1 tB2 =
   recorder_monitor g rB bufB tB1 tB2) /\
  (monitor rA = false ->
   (pcm_rms_db (format rA) bufA > activation_threshold_level_db rA)%R ->
   fst (recorder_monitor g rA bufA tA1 tA2) = mk_globals tA1).
Proof.
  split; [|split].
  - unfold recorder_process.
    destruct (recorder_monitor g rA bufA tA1 tA2) as [g' m].
    destruct (negb (m =? 0)%Z).
    + split; [reflexivity|]. destruct rA; reflexivity.
    + destruct (process_loop _ _ _ _). split; reflexivity.
  - intros H. f_equal. unfold recorder_monitor.
    destruct (monitor rA) eqn:Em; [reflexivity|].
    destruct H as [H|H]; [discriminate|].
    destruct (Rgt_dec _ _); [contradiction|].
    destruct (_ <=? _)%Z; reflexivity.
  - intros Hm Hl. rewrite (monitor_loud g rA bufA tA1 tA2 Hm Hl). reflexivity.
Qed.

End MonitorClaims.

Module ConsumerFacts.
Import Rbuf Writer Recorder Consumer.

Lemma wait_condition_stopped (s : sys) :
  started (s_rec s) = false -> s_cons (wait_condition s) = CExited.
Proof. intros H. unfold wait_condition. rewrite H. reflexivity. Qed.

(** A woken consumer that finds [started] cleared leaves the loop. *)
Lemma consumer_wake_stopped (s : sys) (now : timespec) :
  s_cons s = CWoken -> started (s_rec s) = false ->
  s_cons (consumer_wake s now) = CExited.
Proof.
  intros Hc Hs. unfold consumer_wake. rewrite Hc.
  destruct (negb _ && _); [destruct (_ >? _)%Z|].
  - destruct (writer_close (s_w s)). apply wait_condition_stopped. exact Hs.
  - apply wait_condition_stopped. exact Hs.
  - apply wait_condition_stopped. exact Hs.
Qed.

Lemma wait_condition_w (s : sys) : s_w (wait_condition s) = s_w s.
Proof.
  unfold wait_condition. destruct (_ && _); [|destruct (negb _)]; reflexivity.
Qed.

Lemma writer_close_opened (w : writer) : opened (fst (writer_close w)) = false.
Proof. destruct w as [t o [h|]]; reflexivity. Qed.

Lemma consumer_wake_opened (s : sys) (now : timespec) :
  s_cons s = CWoken ->
  opened (s_w (consumer_wake s now)) =
  opened (s_w s) &&
  negb (negb (output_split_time_ms (s_rec s) =? 0)%Z &&
        (ts_diff_ms now (s_last_write s) >? output_split_time_ms (s_rec s))%Z).
Proof.
  intros Hc. unfold consumer_wake. rewrite Hc, wait_condition_w.
  destruct (opened (s_w s)) eqn:Ho;
    destruct (output_split_time_ms (s_rec s) =? 0)%Z; simpl; rewrite ?Ho;
    try reflexivity.
  destruct (_ >? _)%Z; simpl; [|exact Ho].
  pose proof (writer_close_opened (s_w s)) as Hw.
  destruct (writer_close (s_w s)) as [w' e]. exact Hw.
Qed.

End ConsumerFacts.

Module ConsumerClaims.
Import Rbuf Pcm Writer Recorder Consumer ConsumerFacts MonitorFacts AlsaCapture.

(** C3 (counterexample).  A consumer blocked on an empty ring buffer is still
    blocked after [recorder_stop], and after a second [recorder_stop]: the
    function clears [started] and calls the backend's stop hook but sends no
    [pthread_cond_signal], and without a signal the wait does not return. *)
Lemma recorder_stop_no_wakeup_counterexample :
  let r := mk_recorder PCM_FORMAT_S16LE 1 800 (mk_rbuf 0 0 0 16 0 8 2) true
             (-50)%R 500%Z 0%Z false 0%Z in
  let s := mk_sys r (writer_new WAV) (mk_ts 0 0) CWaiting 0 [] in
  s_cons (recorder_stop s) = CWaiting /\
  s_cons (recorder_stop (recorder_stop s)) = CWaiting /\
  consumer_wake (recorder_stop s) (mk_ts 1000 0) = recorder_stop s.
Proof. repeat split; reflexivity. Qed.

(** C3 (amended).  [recorder_stop] clears [started] and invokes the
    backend's stop hook; repeating it changes nothing else than invoking the
    hook again.  It signals nothing: a consumer blocked on empty input stays
    blocked until the next [pthread_cond_signal], which [recorder_start] sends
    once the backend's start has returned (a producer's signal does the
    same); woken with [started] cleared, the consumer leaves its loop. *)
Theorem recorder_stop_wakeup_via_start (s : sys) (now : timespec) :
  s_cons s = CWaiting ->
  started (s_rec (recorder_stop s)) = false /\
  s_cons (recorder_stop s) = CWaiting /\
  s_rec (recorder_stop (recorder_stop s)) = s_rec (recorder_stop s) /\
  s_w (recorder_stop (recorder_stop s)) = s_w (recorder_stop s) /\
  s_cons (recorder_stop (recorder_stop s)) = s_cons (recorder_stop s) /\
  s_log (recorder_stop (recorder_stop s)) = s_log (recorder_stop s) /\
  s_stop_calls (recorder_stop (recorder_stop s)) = S (s_stop_calls (recorder_stop s)) /\
  s_cons (consumer_wake (recorder_start_epilogue (recorder_stop s)) now) = CExited /\
  s_cons (consumer_wake (cond_signal (recorder_stop s)) now) = CExited.
Proof.
  intros Hc.
  split; [reflexivity|]. split; [exact Hc|].
  split; [reflexivity|]. split; [reflexivity|]. split; [reflexivity|].
  split; [reflexivity|]. split; [reflexivity|].
  split; apply consumer_wake_stopped; try reflexivity;
    unfold recorder_start_epilogue, cond_signal; simpl; rewrite Hc; reflexivity.
Qed.

Lemma recorder_stop_wakeup_via_start_witness :
  let r := mk_recorder PCM_FORMAT_S16LE 1 800 (mk_rbuf 0 0 0 16 0 8 2) true
             (-50)%R 500%Z 0%Z false 0%Z in
  let s := mk_sys r (writer_new WAV) (mk_ts 0 0) CWaiting 0 [] in
  s_cons s = CWaiting /\
  s_cons (consumer_wake (recorder_start_epilogue (recorder_stop s)) (mk_ts 1 0)) = CExited.
Proof.
  intros r s. split; [reflexivity|].
  apply (recorder_stop_wakeup_via_start s (mk_ts 1 0) eq_refl).
Defined.

(** C7 (code_bug).  The consumer closes an expired output file only when a
    [pthread_cond_signal] wakes it from its wait.  [recorder_process] (the
    PipeWire and PortAudio path) returns before its loop when
    [recorder_monitor] reports a chunk that is not live, so it sends no
    signal, although its own comment and the ALSA capture loop, which
    signals after every successful read, give that signal the job of closing
    the writer once the split time is exceeded.  In general: a chunk that is
    not live yields no producer event and leaves the waiting consumer as it
    is, while every successful ALSA read signals.  Concretely, split interval
    2000 ms, a file open since the last write at 0 ms, a silent chunk at
    3000 ms: through [recorder_process] the consumer stays blocked with the
    file open; through the ALSA loop it is woken and closes the file. *)
Theorem split_close_needs_signal :
  (forall (g : globals) (r : recorder) (buffer : list Z) (t1 t2 : timespec) (s : sys),
     snd (recorder_monitor g r buffer t1 t2) <> 0%Z ->
     let '(_, _, evs, _) := recorder_process g r buffer t1 t2 in
     evs = [] /\ deliver evs s = s) /\
  (forall (g : globals) (r : recorder) (k : nat) (data : list Z) (t1 t2 : timespec),
     let '(_, _, evs, _) := alsa_capture_iteration g r (ReadiFrames k data) t1 t2 in
     In ASignal evs) /\
  (let r := mk_recorder PCM_FORMAT_S16LE 1 800 (mk_rbuf 0 0 0 16 0 8 2) true
              (-50)%R 500%Z 2000%Z false 0%Z in
   let s := mk_sys r (mk_writer WAV true (Some 1)) (ts_of_ns 0) CWaiting 0 [] in
   let g := mk_globals (ts_of_ns 0) in
   let T := ts_of_ns 3000000000 in
   (ts_diff_ms T (s_last_write s) > output_split_time_ms r)%Z /\
   (let '(_, _, evs, _) := recorder_process g r [0%Z] T T in
    evs = [] /\ s_cons (deliver evs s) = CWaiting /\ opened (s_w (deliver evs s)) = true) /\
   (let '(_, _, evs, _) := alsa_capture_iteration g r (ReadiFrames 1 [0%Z]) T T in
    In ASignal evs) /\
   opened (s_w (consumer_wake (cond_signal s) T)) = false /\
   s_log (consumer_wake (cond_signal s) T) = [Release 1]).
Proof.
  assert (P : forall (g : globals) (r : recorder) (buffer : list Z) (t1 t2 : timespec) (s : sys),
     snd (recorder_monitor g r buffer t1 t2) <> 0%Z ->
     let '(_, _, evs, _) := recorder_process g r buffer t1 t2 in
     evs = [] /\ deliver evs s = s).
  { intros g r buffer t1 t2 s Hm. unfold recorder_process.
    destruct (recorder_monitor g r buffer t1 t2) as [g' m]. simpl in Hm.
    apply Z.eqb_neq in Hm. rewrite Hm. split; reflexivity. }
  assert (A : forall (g : globals) (r : recorder) (k : nat) (data : list Z) (t1 t2 : timespec),
     let '(_, _, evs, _) := alsa_capture_iteration g r (ReadiFrames k data) t1 t2 in
     In ASignal evs).
  { intros g r k data t1 t2. unfold alsa_capture_iteration.
    destruct (recorder_monitor g r data t1 t2) as [g' m].
    destruct (m =? 0)%Z; simpl; tauto. }
  split; [exact P|]. split; [exact A|].
  intros r s g T.
  assert (Hm : recorder_monitor g r [0%Z] T T = (g, (-1)%Z)).
  { rewrite (monitor_silent g r [0%Z] T T eq_refl ltac:(simpl; lra)
               ltac:(repeat constructor)).
    vm_compute. reflexivity. }
  pose proof (P g r [0%Z] T T s ltac:(rewrite Hm; discriminate)) as HP.
  pose proof (A g r 1 [0%Z] T T) as HA.
  destruct (recorder_process g r [0%Z] T T) as [[[g1 r1] evs1] c1].
  destruct HP as [E1 D1].
  split; [vm_compute; reflexivity|].
  split; [rewrite D1; split; [exact E1 | split; reflexivity]|].
  split; [exact HA|].
  vm_compute. split; reflexivity.
Qed.

End ConsumerClaims.

(* ------------------------------------------------------------------ *)
(** ** Further properties of the code *)

Module RbufDataFacts.
Import Rbuf RbufFacts RbufData.

Lemma memcpy_out (buf : list Z) : forall m dst s x,
  (forall i, i < length buf -> x <> dst + i * s) ->
  memcpy_samples m dst s buf x = m x.
Proof.
  induction buf as [|y buf IH]; intros m dst s x Hx; simpl; [reflexivity|].
  rewrite IH.
  - unfold mem_set. destruct (x =? dst) eqn:E; [|reflexivity].
    apply Nat.eqb_eq in E. exfalso. apply (Hx 0); simpl; lia.
  - intros i Hi C. apply (Hx (S i)); simpl; lia.
Qed.

Lemma memcpy_in (buf : list Z) : forall m dst s i,
  0 < s -> i < length buf ->
  memcpy_samples m dst s buf (dst + i * s) = nth i buf 0%Z.
Proof.
  induction buf as [|y buf IH]; intros m dst s i Hs Hi; simpl in *; [lia|].
  destruct i as [|i].
  - rewrite memcpy_out.
    + unfold mem_set. rewrite Nat.mul_0_l, Nat.add_0_r, Nat.eqb_refl. reflexivity.
    + intros j Hj. lia.
  - replace (dst + S i * s) with (dst + s + i * s) by (simpl; lia).
    apply IH; [exact Hs | lia].
Qed.

Lemma load_map (m : mem) (b s n : nat) : forall k,
  load_samples m (b + k * s) s n = map (fun i => m (b + i * s)) (seq k n).
Proof.
  induction n as [|n IH]; intros k; simpl; [reflexivity|].
  f_equal. replace (b + k * s + s) with (b + S k * s) by (simpl; lia). apply IH.
Qed.

Lemma map_seq_shift {A : Type} (f : nat -> A) (k l : nat) : forall j,
  map f (seq (k + j) l) = map (fun i => f (k + i)) (seq j l).
Proof.
  induction l as [|l IH]; intros j; simpl; [reflexivity|].
  f_equal. replace (S (k + j)) with (k + S j) by lia. apply IH.
Qed.

Lemma map_seq_nth (F : nat -> Z) (batch : list Z) : forall u,
  (forall j, j < length batch -> F (u + j) = nth j batch 0%Z) ->
  map F (seq u (length batch)) = batch.
Proof.
  induction batch as [|y batch IH]; intros u H; simpl; [reflexivity|].
  f_equal.
  - pose proof (H 0 ltac:(simpl; lia)) as H0. simpl in H0.
    rewrite Nat.add_0_r in H0. exact H0.
  - apply IH. intros j Hj. replace (S u + j) with (u + S j) by lia.
    apply (H (S j)). simpl. lia.
Qed.

Lemma mod_once (a N : nat) : a < 2 * N -> a mod N = if a <? N then a else a - N.
Proof.
  intros H. destruct (a <? N) eqn:E.
  - apply Nat.ltb_lt in E. apply Nat.mod_small. exact E.
  - apply Nat.ltb_ge in E. symmetry. apply (Nat.mod_unique a N 1 (a - N)); lia.
Qed.

Ltac mod_simpl :=
  repeat match goal with
  | |- context [?a mod ?N] => rewrite (mod_once a N) by lia
  end.

Lemma addr_inj (b x y s : nat) : 0 < s -> b + x * s = b + y * s -> x = y.
Proof. intros Hs E. apply (Nat.mul_cancel_r _ _ s); lia. Qed.

Lemma put_mk (m : mem) (b h t u N s : nat) (batch : list Z) :
  0 < s -> einv h t u N ->
  length batch <= (if t <? h then h - t else if u =? N then 0 else N - t) ->
  map (fun i => memcpy_samples m (b + t * s) s batch (b + ((h + i) mod N) * s))
    (seq 0 (u + length batch)) =
  map (fun i => m (b + ((h + i) mod N) * s)) (seq 0 u) ++ batch.
Proof.
  intros Hs Hi Hk. rewrite seq_app, map_app. f_equal.
  - apply map_ext_in. intros i Hin. apply in_seq in Hin.
    apply memcpy_out. intros j Hj C.
    replace (b + t * s + j * s) with (b + (t + j) * s) in C by lia.
    apply addr_inj in C; [|exact Hs]. revert C.
    unfold einv in Hi. mod_simpl. revert Hk. case_bools; lia.
  - simpl. apply map_seq_nth. intros j Hj.
    replace ((h + (u + j)) mod N) with (t + j).
    + replace (b + (t + j) * s) with (b + t * s + j * s) by lia.
      apply memcpy_in; [exact Hs | exact Hj].
    + unfold einv in Hi. revert Hk. case_bools; intros Hk; mod_simpl; case_bools; lia.
Qed.

Lemma get_mk (m : mem) (b h t u N s n : nat) :
  0 < s -> einv h t u N ->
  n <= (if h <? t then t - h else if u =? 0 then 0 else N - h) ->
  map (fun i => m (b + ((h + i) mod N) * s)) (seq 0 u) =
  load_samples m (b + h * s) s n ++
  map (fun i => m (b + (((if h + n =? N then 0 else h + n) + i) mod N) * s))
    (seq 0 (u - n)).
Proof.
  intros Hs Hi Hn.
  assert (Hu : n <= u) by (unfold einv in Hi; revert Hn; case_bools; lia).
  replace u with (n + (u - n)) at 1 by lia.
  rewrite seq_app, map_app, load_map. f_equal.
  - replace (seq h n) with (seq (h + 0) n) by (rewrite Nat.add_0_r; reflexivity).
    rewrite map_seq_shift.
    apply map_ext_in. intros i Hin. apply in_seq in Hin.
    f_equal. f_equal. unfold einv in Hi. revert Hn. case_bools; intros Hn;
      mod_simpl; case_bools; lia.
  - replace (seq (0 + n) (u - n)) with (seq (n + 0) (u - n))
      by (rewrite Nat.add_0_r; reflexivity).
    rewrite map_seq_shift.
    apply map_ext_in. intros j Hin. apply in_seq in Hin.
    f_equal. f_equal. unfold einv in Hi. revert Hn. case_bools; intros Hn;
      mod_simpl; case_bools; lia.
Qed.

Lemma contents_mk (m : mem) (b h t u N s : nat) : 0 < s ->
  rb_contents (mk b h t u N s) m = map (fun i => m (b + ((h + i) mod N) * s)) (seq 0 u).
Proof.
  intros Hs. unfold rb_contents, mk; simpl.
  replace (b + h * s - b) with (h * s) by lia. rewrite Nat.div_mul by lia. reflexivity.
Qed.

Lemma run_io_mk (ops : list io) : forall b h t u N s m rb' m' out,
  0 < s -> einv h t u N ->
  run_io (mk b h t u N s) m ops = Some (rb', m', out) ->
  out ++ rb_contents rb' m' =
  map (fun i => m (b + ((h + i) mod N) * s)) (seq 0 u) ++ put_data ops.
Proof.
  induction ops as [|op ops IH]; intros b h t u N s m rb' m' out Hs Hi Hrun;
    simpl in Hrun.
  - injection Hrun as <- <- <-. rewrite contents_mk by exact Hs.
    simpl. rewrite app_nil_r. reflexivity.
  - destruct op as [batch|n].
    + unfold rb_put in Hrun. rewrite wcap_mk in Hrun by exact Hs.
      destruct (length batch <=? _) eqn:Hk; [|discriminate].
      apply Nat.leb_le in Hk. rewrite wcommit_mk in Hrun by exact Hs.
      simpl in Hrun.
      rewrite (IH _ _ _ _ _ _ _ _ _ _ Hs (einv_write h t u N _ Hi Hk) Hrun).
      rewrite put_mk by assumption. simpl. rewrite app_assoc. reflexivity.
    + unfold rb_get in Hrun. rewrite (rcap_einv b h t u N s Hs Hi) in Hrun.
      destruct (n <=? _) eqn:Hn; [|discriminate].
      apply Nat.leb_le in Hn. rewrite rcommit_mk in Hrun by exact Hs.
      simpl in Hrun.
      destruct (run_io _ m ops) as [[[rb1 m1] out1]|] eqn:Hr; [|discriminate].
      injection Hrun as <- <- <-.
      rewrite <- app_assoc.
      rewrite (IH _ _ _ _ _ _ _ _ _ _ Hs (einv_read h t u N n Hi Hn) Hr).
      rewrite (get_mk m b h t u N s n Hs Hi Hn). simpl. rewrite app_assoc. reflexivity.
Qed.

Ltac no_if t := lazymatch t with context [if _ then _ else _] => fail | _ => idtac end.

(** Case analysis on the comparisons of a goal, innermost first. *)
Ltac case_bools_in :=
  repeat match goal with
  | |- context [?a <? ?b] =>
      no_if a; no_if b;
      let E := fresh "E" in destruct (a <? b) eqn:E;
      [apply Nat.ltb_lt in E | apply Nat.ltb_ge in E]
  | |- context [?a =? ?b] =>
      no_if a; no_if b;
      let E := fresh "E" in destruct (a =? b) eqn:E;
      [apply Nat.eqb_eq in E | apply Nat.eqb_neq in E]
  end.

End RbufDataFacts.

Module RbufDataExtra.
Import Rbuf RbufFacts RbufData RbufDataFacts.

(** X1.  Ring-buffer FIFO order.  Storing batches at the tail with
    [rb_put] and loading samples from the head with [rb_get], each within
    the linear capacity queried just before, from a freshly initialised
    buffer: what was read followed by the samples still held (read from
    memory in head-to-tail order, wrapping at the end of storage) is exactly
    what was written, and the buffer holds [used] samples. *)
Theorem rbuf_fifo (p N s : nat) (m0 : mem) (ops : list io) (rb0 rb : rbuf) (m : mem)
    (out : list Z) :
  0 < s -> rbuf_init (Some p) N s = Some rb0 ->
  run_io rb0 m0 ops = Some (rb, m, out) ->
  out ++ rb_contents rb m = put_data ops /\ length (rb_contents rb m) = used rb.
Proof.
  intros Hs Hinit Hrun. rewrite init_mk in Hinit. injection Hinit as <-.
  split.
  - rewrite (run_io_mk ops p 0 0 0 N s m0 rb m out Hs (einv_init N) Hrun). reflexivity.
  - unfold rb_contents. rewrite length_map, length_seq. reflexivity.
Qed.

(** A run that wraps around a 4-element buffer. *)
Lemma rbuf_fifo_witness :
  let ops := [Put [1; 2; 3]%Z; Get 3; Put [4]%Z; Put [5; 6]%Z; Get 1] in
  match run_io (mk_rbuf 0 0 0 8 0 4 2) (fun _ => 0%Z) ops with
  | Some (rb, m, out) =>
      out = [1; 2; 3; 4]%Z /\ rb_contents rb m = [5; 6]%Z /\
      (out ++ rb_contents rb m = put_data ops /\ length (rb_contents rb m) = used rb)
  | None => False
  end.
Proof.
  intros ops. destruct (run_io _ _ ops) as [[[rb m] out]|] eqn:E.
  - pose proof (rbuf_fifo 0 4 2 (fun _ => 0%Z) ops (mk_rbuf 0 0 0 8 0 4 2) rb m out
                  ltac:(lia) eq_refl E) as H.
    vm_compute in E. injection E as <- <- <-.
    split; [reflexivity|]. split; [vm_compute; reflexivity|]. exact H.
  - vm_compute in E. discriminate E.
Defined.

(** X2.  In a reachable state two linear reads, each of the read capacity
    returned at that moment, drain the buffer (the two capacities add up to
    [used]); likewise two linear writes of the write capacity fill it (they
    add up to [nmemb - used]).  The split into two steps happens exactly
    when the region wraps past the end of the storage. *)
Theorem rbuf_drain_fill_two_steps (rb : rbuf) :
  reachable rb ->
  (let r1 := rbuf_read_linear_capacity rb in
   let rb1 := rbuf_read_linear_commit rb r1 in
   let r2 := rbuf_read_linear_capacity rb1 in
   let rb2 := rbuf_read_linear_commit rb1 r2 in
   r1 + r2 = used rb /\ used rb2 = 0 /\ rbuf_read_linear_capacity rb2 = 0) /\
  (let w1 := rbuf_write_linear_capacity rb in
   let rb1 := rbuf_write_linear_commit rb w1 in
   let w2 := rbuf_write_linear_capacity rb1 in
   let rb2 := rbuf_write_linear_commit rb1 w2 in
   w1 + w2 = nmemb rb - used rb /\ used rb2 = nmemb rb /\
   rbuf_write_linear_capacity rb2 = 0).
Proof.
  intros Hr. destruct (reachable_mk rb Hr) as (b & h & t & u & N & s & Hs & -> & Hi).
  pose proof (einv_le h t u N Hi) as Hle.
  split; cbv zeta.
  - rewrite (rcap_einv b h t u N s Hs Hi), rcommit_mk by exact Hs.
    rewrite rcap_mk by (exact Hs || (unfold einv in Hi; case_bools_in; lia)).
    rewrite rcommit_mk by exact Hs.
    rewrite rcap_mk by (exact Hs || (unfold einv in Hi; case_bools_in; lia)).
    simpl. unfold einv in Hi. case_bools_in; lia.
  - rewrite wcap_mk, wcommit_mk by exact Hs.
    rewrite wcap_mk by exact Hs.
    rewrite wcommit_mk by exact Hs.
    rewrite wcap_mk by exact Hs.
    simpl. unfold einv in Hi. case_bools_in; lia.
Qed.

(** A buffer whose readable region wraps: it drains in two steps of 1. *)
Lemma rbuf_drain_fill_two_steps_witness :
  let rb := mk_rbuf 3 1 0 4 2 4 1 in
  reachable rb /\ rbuf_read_linear_capacity rb = 1 /\
  rbuf_read_linear_capacity (rbuf_read_linear_commit rb 1) = 1 /\
  used (rbuf_read_linear_commit (rbuf_read_linear_commit rb 1) 1) = 0.
Proof.
  intros rb.
  assert (R : reachable rb).
  { exists 0, 4, 1, [WrCommit 3; RdCommit 3; WrCommit 1; WrCommit 1].
    split; [lia|]. eexists; split; reflexivity. }
  destruct (rbuf_drain_fill_two_steps rb R) as [[H1 [H2 H3]] _].
  split; [exact R|]. split; [reflexivity|]. split; [reflexivity|]. exact H2.
Defined.

End RbufDataExtra.

Module TimeExtra.
Import Recorder.

(** X3.  [ts_diff_ms] is antisymmetric and zero on equal stamps; for
    normalised stamps (0 <= tv_nsec < 1e9) it is the true difference in
    nanoseconds divided by 1e6 up to an error below one millisecond, and it
    does not floor: one nanosecond short of a second still counts 1000 ms
    when the seconds differ by one. *)
Theorem ts_diff_ms_accuracy :
  (forall a b : timespec, ts_diff_ms a b = (- ts_diff_ms b a)%Z) /\
  (forall a : timespec, ts_diff_ms a a = 0%Z) /\
  (forall a b : timespec,
     (Z.abs ((tv_sec a * 1000000000 + tv_nsec a) - (tv_sec b * 1000000000 + tv_nsec b)
             - ts_diff_ms a b * 1000000) < 1000000)%Z) /\
  ts_diff_ms (mk_ts 1 0) (mk_ts 0 1) = 1000%Z.
Proof.
  split; [|split; [|split]].
  - intros a b. unfold ts_diff_ms.
    replace (tv_nsec b - tv_nsec a)%Z with (- (tv_nsec a - tv_nsec b))%Z by lia.
    rewrite Z.quot_opp_l by lia. lia.
  - intros a. unfold ts_diff_ms. rewrite !Z.sub_diag. reflexivity.
  - intros a b. unfold ts_diff_ms.
    pose proof (Z.quot_rem' (tv_nsec a - tv_nsec b) 1000000) as Hq.
    pose proof (Z.rem_bound_abs (tv_nsec a - tv_nsec b) 1000000 ltac:(lia)) as Hb.
    set (q := Z.quot (tv_nsec a - tv_nsec b) 1000000) in *.
    set (r := Z.rem (tv_nsec a - tv_nsec b) 1000000) in *.
    replace (tv_sec a * 1000000000 + tv_nsec a - (tv_sec b * 1000000000 + tv_nsec b)
             - ((tv_sec a - tv_sec b) * 1000 + q) * 1000000)%Z with r by lia.
    exact Hb.
  - reflexivity.
Qed.

End TimeExtra.

Module PcmFacts.
Import Pcm.

Lemma pcm_sum2_bound (format : pcm_format) (M : Z) (buffer : list Z) :
  Forall (fun v => Z.abs (pcm_sample_value format v) <= M)%Z buffer ->
  (0 <= pcm_sum2 format buffer <= Z.of_nat (length buffer) * (M * M))%Z.
Proof.
  intros H. unfold pcm_sum2.
  assert (G : forall acc, (0 <= acc)%Z ->
    (0 <= fold_left (fun acc v =>
       (acc + pcm_sample_value format v * pcm_sample_value format v)%Z) buffer acc
     <= acc + Z.of_nat (length buffer) * (M * M))%Z).
  { induction H as [|v l Hv _ IH]; intros acc Hacc; cbn [fold_left length]; [lia|].
    assert (Hsq : (0 <= pcm_sample_value format v * pcm_sample_value format v <= M * M)%Z).
    { split; [nia|]. rewrite <- Z.abs_square. nia. }
    specialize (IH (acc + pcm_sample_value format v * pcm_sample_value format v)%Z
                   ltac:(lia)).
    rewrite Nat2Z.inj_succ. nia. }
  specialize (G 0%Z ltac:(lia)). lia.
Qed.

Lemma ln_10_pos : (0 < ln 10)%R.
Proof. rewrite <- ln_1. apply ln_increasing; lra. Qed.

Lemma pcm_rms_db_le_0 (format : pcm_format) (M : Z) (buffer : list Z) :
  (0 < M)%Z ->
  (match format with PCM_FORMAT_U8 => 127 | PCM_FORMAT_S16LE => 32767 end)%R = IZR M ->
  Forall (fun v => Z.abs (pcm_sample_value format v) <= M)%Z buffer ->
  (pcm_rms_db format buffer <= 0)%R.
Proof.
  intros HM Hmax H. pose proof (pcm_sum2_bound format M buffer H) as [H0 H1].
  unfold pcm_rms_db. destruct (0 <? length buffer) eqn:E; cbv beta iota.
  - apply Nat.ltb_lt in E. rewrite Hmax.
    set (rms := sqrt (IZR (pcm_sum2 format buffer) / INR (length buffer))).
    assert (Hr : (rms <= IZR M)%R).
    { unfold rms. rewrite <- (sqrt_square (IZR M)) by (apply IZR_le; lia).
      apply sqrt_le_1_alt. apply (Rmult_le_reg_r (INR (length buffer))).
      - apply lt_0_INR. exact E.
      - unfold Rdiv. rewrite Rmult_assoc, Rinv_l by (apply not_0_INR; lia).
        rewrite Rmult_1_r, INR_IZR_INZ, <- !mult_IZR. apply IZR_le. lia. }
    destruct (Rlt_dec 0 rms) as [Hp|Hp]; [|lra].
    assert (HMr : (0 < IZR M)%R) by (apply IZR_lt; lia).
    assert (Hq : (ln (rms / IZR M) <= 0)%R).
    { destruct (Rle_lt_or_eq_dec (rms / IZR M) 1) as [Hlt|Heq].
      - apply (Rmult_le_reg_r (IZR M)); [exact HMr|].
        unfold Rdiv. rewrite Rmult_assoc, Rinv_l, Rmult_1_r by lra. lra.
      - rewrite <- ln_1. left. apply ln_increasing; [|exact Hlt].
        apply Rdiv_lt_0_compat; lra.
      - rewrite Heq, ln_1. lra. }
    pose proof ln_10_pos as H10.
    assert (ln (rms / IZR M) / ln 10 <= 0)%R.
    { unfold Rdiv at 1. pose proof (Rinv_0_lt_compat _ H10). nra. }
    lra.
  - destruct (Rlt_dec 0 0); lra.
Qed.

Lemma pcm_rms_db_one (format : pcm_format) (v M : Z) :
  (0 < M)%Z -> (0 < Z.abs (pcm_sample_value format v))%Z ->
  (match format with PCM_FORMAT_U8 => 127 | PCM_FORMAT_S16LE => 32767 end)%R = IZR M ->
  pcm_rms_db format [v] =
    (20 * (ln (IZR (Z.abs (pcm_sample_value format v)) / IZR M) / ln 10))%R.
Proof.
  intros HM Hv Hmax. unfold pcm_rms_db. change (length [v]) with 1.
  change (0 <? 1) with true. cbv beta iota. rewrite Hmax.
  replace (pcm_sum2 format [v])
    with (Z.abs (pcm_sample_value format v) * Z.abs (pcm_sample_value format v))%Z
    by (unfold pcm_sum2; simpl; rewrite Z.abs_square; lia).
  assert (Hs : sqrt (IZR (Z.abs (pcm_sample_value format v) *
                          Z.abs (pcm_sample_value format v)) / INR 1)
               = IZR (Z.abs (pcm_sample_value format v))).
  { replace (INR 1) with 1%R by reflexivity. unfold Rdiv.
    rewrite Rinv_1, Rmult_1_r, mult_IZR. apply sqrt_square. apply IZR_le. lia. }
  rewrite Hs. destruct (Rlt_dec 0 _) as [_|C]; [reflexivity|].
  exfalso. apply C. apply IZR_lt. exact Hv.
Qed.

End PcmFacts.

Module PcmExtra.
Import Pcm PcmFacts.

(** X4.  The RMS level of [pcm_rms_db] is at most 0 dB for every non-empty
    S16LE chunk with samples in [-32767, 32767] and every U8 chunk with raw
    bytes in [1, 255]; the extreme values -32768 (S16LE) and 0 (U8) give a
    level above 0 dB. *)
Theorem pcm_rms_db_range :
  (forall buffer, Forall (fun v => -32767 <= v <= 32767)%Z buffer ->
     (pcm_rms_db PCM_FORMAT_S16LE buffer <= 0)%R) /\
  (forall buffer, Forall (fun v => 1 <= v <= 255)%Z buffer ->
     (pcm_rms_db PCM_FORMAT_U8 buffer <= 0)%R) /\
  (0 < pcm_rms_db PCM_FORMAT_S16LE [(-32768)%Z])%R /\
  (0 < pcm_rms_db PCM_FORMAT_U8 [0%Z])%R.
Proof.
  assert (Hpos : forall x, (1 < x)%R -> (0 < 20 * (ln x / ln 10))%R).
  { intros x Hx. pose proof ln_10_pos as H10.
    assert (0 < ln x)%R by (rewrite <- ln_1; apply ln_increasing; lra).
    assert (0 < ln x / ln 10)%R by (apply Rdiv_lt_0_compat; lra). lra. }
  split; [|split; [|split]].
  - intros buffer H. apply (pcm_rms_db_le_0 _ 32767); [lia | reflexivity |].
    eapply Forall_impl; [|exact H]. simpl. intros v Hv. lia.
  - intros buffer H. apply (pcm_rms_db_le_0 _ 127); [lia | reflexivity |].
    eapply Forall_impl; [|exact H]. simpl. intros v Hv. lia.
  - rewrite (pcm_rms_db_one _ _ 32767) by (reflexivity || (simpl; lia)).
    apply Hpos. simpl. apply (Rmult_lt_reg_r 32767); [lra|].
    unfold Rdiv. rewrite Rmult_assoc, Rinv_l, Rmult_1_r by lra. lra.
  - rewrite (pcm_rms_db_one _ _ 127) by (reflexivity || (simpl; lia)).
    apply Hpos. simpl. apply (Rmult_lt_reg_r 127); [lra|].
    unfold Rdiv. rewrite Rmult_assoc, Rinv_l, Rmult_1_r by lra. lra.
Qed.

End PcmExtra.

Module WriterOpsFacts.
Import Writer WriterOps.

Lemma handle_trace_app (log1 log2 : list effect) (held mid : option nat) :
  handle_trace held log1 = Some mid ->
  handle_trace held (log1 ++ log2) = handle_trace mid log2.
Proof.
  revert held. induction log1 as [|e log1 IH]; intros held H; simpl in *.
  - injection H as <-. reflexivity.
  - destruct e as [p res|h|h|h|o n]; simpl in *.
    + destruct held; [discriminate | apply IH; exact H].
    + destruct held as [h'|]; [|discriminate].
      destruct (h' =? h); [apply IH; exact H | discriminate].
    + destruct held as [h'|]; [|discriminate].
      destruct (h' =? h); [apply IH; exact H | discriminate].
    + destruct held as [h'|]; [|discriminate].
      destruct (h' =? h); [apply IH; exact H | discriminate].
    + apply IH. exact H.
Qed.

Lemma handle_trace_close (w : writer) :
  handle_trace (handle w) (snd (writer_close w)) = Some (handle (fst (writer_close w))) /\
  handle (fst (writer_close w)) = None.
Proof.
  destruct w as [t o [h|]]; [|split; reflexivity].
  destruct t; simpl; rewrite Nat.eqb_refl; simpl; try rewrite Nat.eqb_refl; split; reflexivity.
Qed.

Lemma handle_trace_step (w : writer) (op : wop) :
  handle_trace (handle w) (snd (writer_step w op)) = Some (handle (fst (writer_step w op))).
Proof.
  destruct op as [p res|]; [|apply handle_trace_close].
  unfold writer_step, writer_open.
  destruct (handle_trace_close w) as [Hc Hn].
  destruct (writer_close w) as [w1 e1] eqn:Ec. simpl in Hc, Hn.
  destruct (wtype w), res as [h|]; simpl; rewrite <- ?app_assoc;
    rewrite (handle_trace_app e1 _ (handle w) (handle w1) Hc), Hn; simpl;
    try rewrite Nat.eqb_refl; reflexivity.
Qed.

Lemma writer_close_no_data (w : writer) : forall h k, ~ In (Data h k) (snd (writer_close w)).
Proof.
  intros h k. destruct w as [t o [h'|]]; [destruct t|]; simpl; intuition discriminate.
Qed.

End WriterOpsFacts.

Module WriterOpsExtra.
Import Writer WriterOps WriterOpsFacts.

(** X5.  For every writer type and every sequence of [writer->open] and
    [writer->close] calls followed by [writer->free], the stream handles are
    used in a well-bracketed way: a create happens only when no stream is
    held, headers, finalisation and release touch only the held stream, each
    stream obtained is released exactly once, and none is held at the end. *)
Theorem writer_stream_discipline (t : writer_type) (ops : list wop) :
  let '(w, log) := writer_run (writer_new t) ops in
  handle_trace None (log ++ writer_free w) = Some None.
Proof.
  assert (G : forall ops w, let '(w', log) := writer_run w ops in
            handle_trace (handle w) log = Some (handle w')).
  { induction ops0 as [|op ops0 IH]; intros w; simpl; [reflexivity|].
    pose proof (handle_trace_step w op) as Hs.
    destruct (writer_step w op) as [w1 e1]. simpl in Hs.
    specialize (IH w1). destruct (writer_run w1 ops0) as [w2 e2].
    rewrite (handle_trace_app e1 e2 _ _ Hs). exact IH. }
  specialize (G ops (writer_new t)). destruct (writer_run (writer_new t) ops) as [w log].
  simpl in G. rewrite (handle_trace_app log _ None (handle w) G).
  unfold writer_free. destruct (handle_trace_close w) as [Hc Hn].
  rewrite Hc, Hn. reflexivity.
Qed.

End WriterOpsExtra.

Module ConsumerExtra.
Import Rbuf RbufFacts Pcm Recorder Writer WriterOps WriterOpsFacts Consumer ConsumerFacts
  ConsumerExit.

(** X6.  The consumer with a closed RAW writer: when [fopen] succeeds
    ([res <> None]) the open reports failure, the consumer leaves through
    [goto fail] and nothing is written; when [fopen] fails ([res = None]) the
    consumer proceeds, marks the writer opened with a NULL stream, and hands
    the frames to [writer->write] on that NULL stream. *)
Theorem consumer_raw_writer (s : sys) (now : timespec) (name : nat) (res : option nat)
    (n : nat) :
  s_cons s = CReady n -> wtype (s_w s) = RAW -> opened (s_w s) = false ->
  let s' := consumer_write s now name res in
  (res <> None ->
     s_cons s' = CFailed /\ s_rec s' = s_rec s /\
     s_log s' = s_log s ++ snd (fst (writer_open (s_w s) name res))) /\
  (res = None ->
     s_cons s' <> CFailed /\ opened (s_w s') = true /\ handle (s_w s') = None /\
     exists pre, s_log s' = pre ++ [Data None (n / channels (s_rec s))]).
Proof.
  intros Hc Ht Ho. destruct s as [r w lw c sc lg]; simpl in *. subst c.
  destruct w as [t o hd]; simpl in *. subst t o.
  unfold consumer_write; simpl.
  split.
  - intros Hr. destruct res as [h|]; [|congruence].
    destruct hd; simpl; repeat split; reflexivity.
  - intros ->.
    assert (E : forall x : sys, s_log (wait_condition x) = s_log x /\
                  s_w (wait_condition x) = s_w x /\ s_cons (wait_condition x) <> CFailed).
    { intros x. unfold wait_condition.
      destruct (_ && _); [| destruct (negb _)]; simpl; repeat split; discriminate. }
    destruct hd as [h|]; cbn -[app];
      match goal with |- context [wait_condition ?x] =>
        destruct (E x) as (E1 & E2 & E3) end;
      rewrite E1, E2; cbn -[app]; (split; [exact E3|]); split; try reflexivity;
      split; try reflexivity;
      eexists; rewrite app_assoc; reflexivity.
Qed.

(** A successful [fopen] on a RAW writer ends the consumer. *)
Lemma consumer_raw_writer_witness :
  let r0 := mk_recorder PCM_FORMAT_S16LE 2 100 (mk_rbuf 0 8 0 32 4 16 2) true
              0%R 0%Z 0%Z false 0%Z in
  let s0 := mk_sys r0 (writer_new RAW) (mk_ts 0 0) (CReady 4) 0 [] in
  let s' := consumer_write s0 (mk_ts 1 0) 7 (Some 5) in
  s_cons s' = CFailed /\ s_log s' = [Create 7 (Some 5)].
Proof.
  intros r0 s0 s'.
  destruct (consumer_raw_writer s0 (mk_ts 1 0) 7 (Some 5) 4 eq_refl eq_refl eq_refl)
    as [H _].
  destruct (H ltac:(discriminate)) as [A [_ C]].
  split; [exact A|]. unfold s'. rewrite C. reflexivity.
Defined.

(** What a wake-up does to the recorder, the writer and the effect log. *)
Lemma consumer_wake_effects (s : sys) (now : timespec) :
  s_cons s = CWoken ->
  s_rec (consumer_wake s now) = s_rec s /\
  exists e, s_log (consumer_wake s now) = s_log s ++ e /\
    (forall h k, ~ In (Data h k) e) /\
    handle_trace (handle (s_w s)) e = Some (handle (s_w (consumer_wake s now))).
Proof.
  intros Hc. unfold consumer_wake. rewrite Hc.
  assert (W : forall x : sys, s_rec (wait_condition x) = s_rec x /\
                s_log (wait_condition x) = s_log x).
  { intros x. unfold wait_condition.
    destruct (_ && _); [|destruct (negb _)]; split; reflexivity. }
  destruct (negb _ && _); [destruct (_ >? _)%Z|].
  - pose proof (writer_close_no_data (s_w s)) as Hn.
    destruct (handle_trace_close (s_w s)) as [Ht _].
    destruct (writer_close (s_w s)) as [w' e] eqn:Ec. simpl in Hn, Ht.
    match goal with |- context [wait_condition ?x] => destruct (W x) as [W1 W2] end.
    rewrite W1, W2, wait_condition_w. split; [reflexivity|].
    exists e. split; [reflexivity|]. split; [exact Hn | exact Ht].
  - destruct (W s) as [W1 W2]. rewrite W1, W2, wait_condition_w. split; [reflexivity|].
    exists []. split; [rewrite app_nil_r; reflexivity|]. split; [intros h k []|reflexivity].
  - destruct (W s) as [W1 W2]. rewrite W1, W2, wait_condition_w. split; [reflexivity|].
    exists []. split; [rewrite app_nil_r; reflexivity|]. split; [intros h k []|reflexivity].
Qed.

(** X9.  A woken consumer that sees [started = false] leaves its loop and
    runs the [fail:] epilogue without handing any of the samples still
    buffered to [writer->write]: the recorder state, ring buffer included,
    is unchanged, and the writer calls made after the wake-up (the split-time
    close when it is due, then the close inside [w->free]) contain no data
    write; together they close the stream held at the wake-up exactly once
    (encoder flush where the variant has one, then the release), and the
    writer ends closed with no stream. *)
Theorem shutdown_discards_buffered (s : sys) (now : timespec) :
  s_cons s = CWoken -> started (s_rec s) = false ->
  let s' := recorder_thread_fail (consumer_wake s now) in
  s_cons s' = CExited /\ s_rec s' = s_rec s /\
  opened (s_w s') = false /\ handle (s_w s') = None /\
  exists e, s_log s' = s_log s ++ e /\ (forall h k, ~ In (Data h k) e) /\
    handle_trace (handle (s_w s)) e = Some None.
Proof.
  intros Hc Hs. cbv zeta.
  pose proof (consumer_wake_stopped s now Hc Hs) as Hx.
  destruct (consumer_wake_effects s now Hc) as [Hr [e1 [Hl [Hn Ht]]]].
  unfold recorder_thread_fail. rewrite Hx. cbn [s_cons s_rec s_w s_log].
  destruct (handle_trace_close (s_w (consumer_wake s now))) as [Hc2 Hn2].
  rewrite Hn2 in Hc2.
  split; [reflexivity|]. split; [exact Hr|].
  split; [apply writer_close_opened|]. split; [exact Hn2|].
  exists (e1 ++ writer_free (s_w (consumer_wake s now))).
  split; [rewrite Hl, app_assoc; reflexivity|]. split.
  - intros h k Hin. apply in_app_or in Hin. destruct Hin as [Hin|Hin];
      [exact (Hn h k Hin) | exact (writer_close_no_data _ h k Hin)].
  - rewrite (handle_trace_app e1 _ _ _ Ht). exact Hc2.
Qed.

(** A stop with four samples buffered and an MP3 file open: the encoder is
    flushed and the file released, and nothing is written. *)
Lemma shutdown_discards_buffered_witness :
  let r0 := mk_recorder PCM_FORMAT_S16LE 2 100 (mk_rbuf 0 8 0 32 4 16 2) false
              0%R 0%Z 0%Z false 0%Z in
  let s0 := mk_sys r0 (mk_writer MP3 true (Some 3)) (mk_ts 0 0) CWoken 1 [] in
  0 < rbuf_read_linear_capacity (rb r0) /\
  s_cons (recorder_thread_fail (consumer_wake s0 (mk_ts 1 0))) = CExited /\
  s_rec (recorder_thread_fail (consumer_wake s0 (mk_ts 1 0))) = r0 /\
  s_log (recorder_thread_fail (consumer_wake s0 (mk_ts 1 0))) = [Finalize 3; Release 3].
Proof.
  intros r0 s0.
  destruct (shutdown_discards_buffered s0 (mk_ts 1 0) eq_refl eq_refl)
    as [A [B _]].
  split; [apply Nat.ltb_lt; reflexivity|]. split; [exact A|]. split; [exact B|].
  unfold s0, r0. vm_compute. reflexivity.
Defined.

End ConsumerExtra.

Module CaptureExtra.
Import Rbuf RbufFacts RbufDataFacts Pcm Recorder AlsaCapture RecorderAlloc.

(** X7.  With [monitor] set, [recorder_monitor] returns -2 and leaves the
    activation state unchanged, [recorder_process] commits and signals
    nothing, and an ALSA capture iteration never commits to the ring buffer,
    whatever [snd_pcm_readi] returns. *)
Theorem monitor_mode_no_commit (g : globals) (r : recorder) (buffer : list Z)
    (t1 t2 : timespec) (res : readi_result) :
  monitor r = true ->
  recorder_monitor g r buffer t1 t2 = (g, (-2)%Z) /\
  recorder_process g r buffer t1 t2 = (g, r, [], 0%Z) /\
  (let '(g', r', evs, _) := alsa_capture_iteration g r res t1 t2 in
   g' = g /\ r' = r /\ forall n, ~ In (ACommit n) evs).
Proof.
  intros Hm.
  assert (HM : forall b, recorder_monitor g r b t1 t2 = (g, (-2)%Z)).
  { intros b. unfold recorder_monitor. rewrite Hm. reflexivity. }
  split; [apply HM|]. split.
  - unfold recorder_process. rewrite HM. reflexivity.
  - unfold alsa_capture_iteration. destruct res as [k data| | | |];
      [rewrite HM|..]; simpl; try destruct (1 <=? verbose r)%Z; simpl;
      repeat split; intros n C; intuition discriminate.
Qed.

(** A monitoring recorder on a two-sample chunk. *)
Lemma monitor_mode_no_commit_witness :
  let r0 := mk_recorder PCM_FORMAT_S16LE 2 100 (mk_rbuf 0 0 0 32 0 16 2) true
              0%R 0%Z 0%Z true 0%Z in
  monitor r0 = true /\
  recorder_process globals_init r0 [1; 2]%Z (mk_ts 1 0) (mk_ts 2 0) =
    (globals_init, r0, [], 0%Z).
Proof.
  intros r0. split; [reflexivity|].
  apply (monitor_mode_no_commit globals_init r0 [1; 2]%Z (mk_ts 1 0) (mk_ts 2 0)
           ReadiENODEV eq_refl).
Defined.

(** X8.  One iteration of the ALSA capture loop first calls
    [snd_pcm_readi] for at most [rate / 10] frames and at most as many
    samples as the write capacity (none when less than one frame fits).  A
    successful read signals the consumer and either commits
    [frames * channels] samples, within the capacity when the driver returns
    no more frames than requested, or (monitor result not 0) commits nothing.
    [-ENODEV] ends the thread; [-EPIPE], [-ESTRPIPE] and other errors keep it
    running; none of them signals or changes the state. *)
Theorem alsa_capture_iteration_policy (g : globals) (r : recorder) (res : readi_result)
    (t1 t2 : timespec) :
  0 < channels r ->
  let wcap := rbuf_write_linear_capacity (rb r) in
  let req := Nat.min (wcap / channels r) (rate r / 10) in
  let '(g', r', evs, cont) := alsa_capture_iteration g r res t1 t2 in
  hd_error evs = Some (AReadi req) /\
  req <= rate r / 10 /\ req * channels r <= wcap /\
  (wcap < channels r -> req = 0) /\
  (forall k data, res = ReadiFrames k data ->
     cont = true /\ In ASignal evs /\
     (r' = r \/
      (r' = with_rb r (rbuf_write_linear_commit (rb r) (k * channels r)) /\
       In (ACommit (k * channels r)) evs /\ (k <= req -> k * channels r <= wcap)))) /\
  (res = ReadiENODEV -> cont = false /\ g' = g /\ r' = r /\ ~ In ASignal evs) /\
  (res = ReadiEPIPE \/ res = ReadiESTRPIPE \/ res = ReadiError ->
     cont = true /\ g' = g /\ r' = r /\ ~ In ASignal evs).
Proof.
  intros Hc. cbv zeta.
  set (wcap := rbuf_write_linear_capacity (rb r)).
  set (req := Nat.min (wcap / channels r) (rate r / 10)).
  assert (Hreq : req * channels r <= wcap).
  { pose proof (Nat.Div0.mul_div_le wcap (channels r)).
    pose proof (Nat.le_min_l (wcap / channels r) (rate r / 10)). unfold req. nia. }
  assert (Hrate : req <= rate r / 10) by apply Nat.le_min_r.
  assert (Hsmall : wcap < channels r -> req = 0).
  { intros H. unfold req. rewrite Nat.div_small by exact H. reflexivity. }
  assert (Hnosig : forall v : Z,
            ~ In ASignal ([AReadi req; ARecover] ++
                          (if (1 <=? v)%Z then [AWarnOverrun] else []))).
  { intros v C. destruct (1 <=? v)%Z; simpl in C; intuition discriminate. }
  unfold alsa_capture_iteration. fold wcap. fold req.
  destruct res as [k data| | | |].
  - destruct (recorder_monitor g r data t1 t2) as [g' m].
    destruct (m =? 0)%Z.
    + split; [reflexivity|].
      split; [exact Hrate|]. split; [exact Hreq|]. split; [exact Hsmall|].
      split; [|split; [intros E; discriminate E | intros [E|[E|E]]; discriminate E]].
      intros k' d' E. injection E as <- <-.
      split; [reflexivity|]. split; [simpl; tauto|].
      right. split; [reflexivity|]. split; [simpl; tauto|].
      intros Hk. pose proof (Nat.mul_le_mono_r k req (channels r) Hk). lia.
    + split; [reflexivity|].
      split; [exact Hrate|]. split; [exact Hreq|]. split; [exact Hsmall|].
      split; [|split; [intros E; discriminate E | intros [E|[E|E]]; discriminate E]].
      intros k' d' E. split; [reflexivity|]. split; [simpl; tauto|]. left. reflexivity.
  - split; [reflexivity|]. split; [exact Hrate|]. split; [exact Hreq|].
    split; [exact Hsmall|]. split; [intros k d E; discriminate E|].
    split; [intros E; discriminate E|].
    intros _. split; [reflexivity|]. split; [reflexivity|]. split; [reflexivity|].
    apply Hnosig.
  - split; [reflexivity|]. split; [exact Hrate|]. split; [exact Hreq|].
    split; [exact Hsmall|]. split; [intros k d E; discriminate E|].
    split; [intros E; discriminate E|].
    intros _. split; [reflexivity|]. split; [reflexivity|]. split; [reflexivity|].
    apply Hnosig.
  - split; [reflexivity|]. split; [exact Hrate|]. split; [exact Hreq|].
    split; [exact Hsmall|]. split; [intros k d E; discriminate E|].
    split; [|intros [E|[E|E]]; discriminate E].
    intros _. split; [reflexivity|]. split; [reflexivity|]. split; [reflexivity|].
    simpl. intuition discriminate.
  - split; [reflexivity|]. split; [exact Hrate|]. split; [exact Hreq|].
    split; [exact Hsmall|]. split; [intros k d E; discriminate E|].
    split; [intros E; discriminate E|].
    intros _. split; [reflexivity|]. split; [reflexivity|]. split; [reflexivity|].
    simpl. intuition discriminate.
Qed.

(** A device lost on an empty 16-element buffer of a 2-channel 100 Hz stream. *)
Lemma alsa_capture_iteration_policy_witness :
  let r0 := mk_recorder PCM_FORMAT_S16LE 2 100 (mk_rbuf 0 0 0 32 0 16 2) true
              0%R 0%Z 0%Z false 0%Z in
  0 < channels r0 /\
  (let '(g', r', evs, cont) :=
     alsa_capture_iteration globals_init r0 ReadiENODEV (mk_ts 0 0) (mk_ts 0 0) in
   hd_error evs = Some (AReadi 8) /\ cont = false /\ r' = r0).
Proof.
  intros r0.
  assert (Hc : 0 < channels r0) by (unfold r0; simpl; lia).
  split; [exact Hc|].
  pose proof (alsa_capture_iteration_policy globals_init r0 ReadiENODEV
                (mk_ts 0 0) (mk_ts 0 0) Hc) as H.
  cbv zeta in H.
  destruct (alsa_capture_iteration globals_init r0 ReadiENODEV (mk_ts 0 0) (mk_ts 0 0))
    as [[[g' r'] evs] cont].
  destruct H as [H1 [_ [_ [_ [_ [H6 _]]]]]].
  destruct (H6 eq_refl) as [C [_ [R _]]].
  split; [rewrite H1; reflexivity|]. split; assumption.
Defined.

(** X10.  [recorder_new] returns NULL exactly when one of its two
    allocations (the recorder's [calloc], the ring buffer's [malloc]) fails.
    When the rate is below 10 Hz, [rate / 10] is 0 and a successfully created
    recorder gets a ring buffer of no element with write capacity 0; from
    then on [recorder_process] never commits a sample and leaves the ring
    buffer as it is, and every chunk the monitor lets through is dropped
    whole. *)
Theorem recorder_new_allocation (c m : option nat) (fmt : pcm_format) (ch rate : nat) :
  (recorder_new_calloc c m fmt ch rate = None <-> c = None \/ m = None) /\
  (rate < 10 -> forall r, recorder_new_calloc c m fmt ch rate = Some r ->
     nmemb (rb r) = 0 /\ rbuf_write_linear_capacity (rb r) = 0 /\
     forall (r' : recorder) (g : globals) (buffer : list Z) (t1 t2 : timespec),
       rb r' = rb r ->
       let '(_, r'', evs, _) := recorder_process g r' buffer t1 t2 in
       committed evs = 0 /\ rb r'' = rb r /\
       (snd (recorder_monitor g r' buffer t1 t2) = 0%Z -> dropped evs = length buffer)).
Proof.
  assert (Hs : 0 < pcm_format_size fmt 1) by (destruct fmt; simpl; lia).
  split.
  - unfold recorder_new_calloc, recorder_new, rbuf_init.
    destruct c, m; simpl; split; intros H;
      first [ discriminate | destruct H as [H|H]; discriminate | reflexivity
            | left; reflexivity | right; reflexivity ].
  - intros Hr r H. unfold recorder_new_calloc in H. destruct c as [c|]; [|discriminate].
    unfold recorder_new in H. destruct m as [p|]; [|discriminate].
    rewrite init_mk in H. injection H as <-.
    assert (H0 : rate / 10 = 0) by (apply Nat.div_small; exact Hr).
    cbn [rb]. unfold recorder_rb_nmemb. rewrite H0, Nat.mul_0_r, Nat.mul_0_l.
    rewrite (wcap_mk p 0 0 0 0 (pcm_format_size fmt 1) Hs).
    split; [reflexivity|]. split; [reflexivity|].
    intros r' g buffer t1 t2 Hrb. unfold recorder_process.
    destruct (recorder_monitor g r' buffer t1 t2) as [g' mr]. cbn [snd].
    destruct (negb (mr =? 0)%Z) eqn:Em.
    + split; [reflexivity|]. split; [exact Hrb|].
      intros E. subst mr. discriminate.
    + destruct (length buffer) as [|n]; simpl.
      * split; [reflexivity|]. split; [exact Hrb|]. intros _. reflexivity.
      * rewrite Hrb, (wcap_mk p 0 0 0 0 (pcm_format_size fmt 1) Hs). simpl.
        destruct (1 <=? verbose r')%Z; simpl;
          (split; [reflexivity|]; split; [reflexivity|]; intros _; lia).
Qed.

(** A 5 Hz stream: both allocations succeed and the buffer has no element. *)
Lemma recorder_new_allocation_witness :
  match recorder_new_calloc (Some 8) (Some 64) PCM_FORMAT_S16LE 2 5 with
  | Some r => nmemb (rb r) = 0 /\ rbuf_write_linear_capacity (rb r) = 0
  | None => False
  end.
Proof.
  destruct (recorder_new_calloc (Some 8) (Some 64) PCM_FORMAT_S16LE 2 5) as [r|] eqn:E;
    [|discriminate].
  destruct (recorder_new_allocation (Some 8) (Some 64) PCM_FORMAT_S16LE 2 5)
    as [_ H].
  destruct (H ltac:(lia) r E) as [N0 [W0 _]].
  split; [exact N0 | exact W0].
Defined.

End CaptureExtra.
